(** * Cloudflare Pages deployment watcher: model of [src/action.ts]

    The action polls the Cloudflare Pages deployment list until the watched
    deployment reaches a terminal stage, mirrors the outcome into GitHub
    deployment records and sends Slack notifications.

    The TypeScript code is asynchronous but strictly sequential (one chain of
    [await]s), so it is embedded as a computation in a small monad that
    threads the module-level variables, collects the externally visible
    calls in program order and propagates JavaScript exceptions.  Everything
    the outside world answers (HTTP responses, GitHub API results, Slack
    delivery) is supplied by an explicit environment. *)

From Stdlib Require Import List String Ascii ZArith Bool Lia DecimalString.
Import ListNotations.
Open Scope string_scope.

(** ** JavaScript odds and ends *)

Definition nl : string := String (ascii_of_nat 10) EmptyString.
Definition dquote : string := String (ascii_of_nat 34) EmptyString.

(** Template-literal rendering of an integral number such as [res.status]. *)
Definition string_of_Z (z : Z) : string := NilZero.string_of_int (Z.to_int z).

(** A JavaScript string is falsy exactly when it is empty. *)
Definition truthy (s : string) : bool := negb (s =? "").

(** [JSON.stringify] applied to a string free of quotes, backslashes and
    control characters; the code applies it to one literal only. *)
Definition JSON_stringify_string (s : string) : string := dquote ++ s ++ dquote.

(** [Array.prototype.includes] on an array of strings. *)
Definition includes (l : list string) (s : string) : bool :=
  existsb (fun x => x =? s) l.

(** [Array.prototype.slice(-n)]: the last [n] elements, all of them when the
    array is shorter. *)
Definition slice_last {A} (n : nat) (l : list A) : list A :=
  skipn (List.length l - n) l.

(** A thrown value, kept by its [message]. *)
Record JsError := { message : string }.

(** ** Wire types *)

Module Types.

(** Modelled from the spec: the declarations of [./types] are not part of
    the sources.  A stage is a name with a status, both plain strings. *)
Record Stage := { name : string; status : string }.

(** Modelled from the spec: the trigger metadata, read at
    [deployment_trigger.metadata.branch] and [.commit_hash]. *)
Record Metadata := { branch : string; commit_hash : string }.

Record Trigger := { metadata : Metadata }.

(** Modelled from the spec: the fields of a deployment that [action.ts]
    reads, with the optionality its own accesses show ([aliases] is tested
    for truthiness before its length is read). *)
Record Deployment := {
  id : string;
  project_name : string;
  environment : string;
  url : string;
  aliases : option (list string);
  is_skipped : bool;
  latest_stage : Stage;
  deployment_trigger : Trigger
}.

(** Modelled from the spec: the response envelope.  [result] is read
    through [?.] and so may be missing; each entry of [errors] is held as
    its [JSON.stringify] text. *)
Record ApiResponse := {
  success : bool;
  errors : list string;
  result : option (list Deployment)
}.

(** Modelled from the spec: the two header sets built at lines 33-34. *)
Inductive AuthHeaders :=
| Bearer (apiToken : string)
| EmailKey (accountEmail apiKey : string).

End Types.

Import Types.

(** The [state] argument of [updateDeployment]. *)
Inductive DeployState := in_progress | st_success | st_failure.

(** ** What the outside world answers *)

(** Outcome of [fetch] followed by [res.json()] on the deployment list. *)
Inductive JsonOutcome (B : Type) :=
| JsonThrows (e : JsError)
| JsonBody (body : B).
Arguments JsonThrows {B} e.
Arguments JsonBody {B} body.

Inductive FetchOutcome (B : Type) :=
| FetchThrows (e : JsError)
| Responded (ok : bool) (http_status : Z) (statusText : string)
            (json : JsonOutcome B).
Arguments FetchThrows {B} e.
Arguments Responded {B} ok http_status statusText json.

(** Body of the log-history endpoint as the code looks at it:
    [body.result?.data] is either not an array ([None]) or an array of
    entries, each read through its [line]. *)
Definition LogsBody := option (list string).

Record CreateDeploymentArgs := {
  cd_owner : string; cd_repo : string; cd_ref : string;
  cd_environment : string; cd_production_environment : bool
}.

Record CreateDeploymentStatusArgs := {
  cs_owner : string; cs_repo : string; cs_deployment_id : Z;
  cs_environment : string; cs_environment_url : string;
  cs_log_url : string; cs_state : DeployState
}.

Record Env := {
  (** answer of the log-history request *)
  logs_response : FetchOutcome LogsBody;
  (** [None]: the Slack promise resolves; [Some e]: it rejects with [e] *)
  slack_rejects : option JsError;
  (** [inl id]: [createDeployment] returns a record with that id;
      [inr e]: it throws *)
  createDeployment_result : Z + JsError;
  (** [Some e]: [createDeploymentStatus] throws for that state *)
  createDeploymentStatus_throws : DeployState -> option JsError
}.

(** ** Observable calls *)

Inductive FailPayload := FailString (s : string) | FailError (e : JsError).

Inductive OutValue := OutString (s : string) | OutBool (b : bool) | OutUndefined.

Inductive event :=
| console_log (s : string)
| console_error (s : string)
| core_error (s : string)
| core_setFailed (m : FailPayload)
| core_setOutput (key : string) (v : OutValue)
| setTimeout (ms : Z)
| fetch (url : string) (headers : AuthHeaders)
| slack_send (text : string)
(** a promise callback registered at this point; its effect happens at some
    later moment that the main flow does not wait for *)
| later (e : event)
| createDeployment (a : CreateDeploymentArgs)
| createDeploymentStatus (a : CreateDeploymentStatusArgs)
(** entry into [updateDeployment token deployment state] *)
| call_updateDeployment (token : string) (d : Deployment) (s : DeployState).

(** ** Module-level variables and the monad *)

Record Globals := {
  waiting : bool;
  ghDeployment : option Z;
  markedAsInProgress : bool
}.

(** Values at module load (lines 9-12). *)
Definition initial : Globals :=
  {| waiting := true; ghDeployment := None; markedAsInProgress := false |}.

Inductive Result (A : Type) :=
| Ok (a : A)
| Throw (e : JsError).
Arguments Ok {A} a.
Arguments Throw {A} e.

(** A computation reads the environment, updates the globals, and yields
    the calls it made in program order together with a value or an
    exception. *)
Definition M (A : Type) : Type := Env -> Globals -> Result A * Globals * list event.

Definition ret {A} (a : A) : M A := fun _ g => (Ok a, g, []).

Definition bind {A B} (c : M A) (k : A -> M B) : M B :=
  fun env g =>
    match c env g with
    | (Ok a, g1, t1) =>
        match k a env g1 with
        | (r, g2, t2) => (r, g2, (t1 ++ t2)%list)
        end
    | (Throw e, g1, t1) => (Throw e, g1, t1)
    end.

Definition throw {A} (e : JsError) : M A := fun _ g => (Throw e, g, []).

(** [try c catch (e) handler]. *)
Definition try_catch {A} (c : M A) (handler : JsError -> M A) : M A :=
  fun env g =>
    match c env g with
    | (Ok a, g1, t1) => (Ok a, g1, t1)
    | (Throw e, g1, t1) =>
        match handler e env g1 with
        | (r, g2, t2) => (r, g2, (t1 ++ t2)%list)
        end
    end.

Definition emit (e : event) : M unit := fun _ g => (Ok tt, g, [e]).
Definition ask : M Env := fun env g => (Ok env, g, []).
Definition get : M Globals := fun _ g => (Ok g, g, []).
Definition put (g : Globals) : M unit := fun _ _ => (Ok tt, g, []).

Declare Scope js_scope.
Delimit Scope js_scope with js.
Notation "x <- c ;; k" := (bind c (fun x => k))
  (at level 61, c at next level, right associativity) : js_scope.
Notation "c ;; k" := (bind c (fun _ => k))
  (at level 61, right associativity) : js_scope.
Open Scope js_scope.

Definition set_waiting (b : bool) : M unit :=
  g <- get ;;
  put {| waiting := b; ghDeployment := ghDeployment g;
         markedAsInProgress := markedAsInProgress g |}.

Definition set_ghDeployment (d : Z) : M unit :=
  g <- get ;;
  put {| waiting := waiting g; ghDeployment := Some d;
         markedAsInProgress := markedAsInProgress g |}.

Definition set_markedAsInProgress (b : bool) : M unit :=
  g <- get ;;
  put {| waiting := waiting g; ghDeployment := ghDeployment g;
         markedAsInProgress := b |}.

(** Projections of a finished computation. *)
Definition result_of {A} (x : Result A * Globals * list event) : Result A := fst (fst x).
Definition globals_of {A} (x : Result A * Globals * list event) : Globals := snd (fst x).
Definition trace_of {A} (x : Result A * Globals * list event) : list event := snd x.

(** ** Configuration *)

(** The action inputs as supplied by the workflow.  They are taken to carry
    no surrounding white space, so that [trimWhitespace] leaves them as they
    are. *)
Record Inputs := {
  accountEmail : string;
  apiKey : string;
  apiToken : string;
  accountId : string;
  project : string;
  githubToken : string;
  commitHash : string;
  slackWebHook : string
}.

(** The parts of [@actions/github]'s [context] that are read. *)
Record Context := {
  repo_owner : string;
  repo_repo : string;
  head_commit_url : option string;
  context_actor : option string
}.

(** [x || ""] on a possibly missing string. *)
Definition or_empty (x : option string) : string :=
  match x with Some s => s | None => "" end.

(** [core.getInput(name, { required, trimWhitespace: true })]. *)
Definition getInput (value name : string) (required : bool) : M string :=
  if required && negb (truthy value)
  then throw {| message := "Input required and not supplied: " ++ name |}
  else ret value.

(** ** [validateAuthInputs] (lines 164-175) *)

Definition validateAuthInputs (token email key : string) : M bool :=
  if negb (token =? "") then ret true
  else if negb (email =? "") && negb (key =? "") then ret true
  else
    emit (core_setFailed (FailString
      "Please specify authentication details! Set either `apiToken` or `accountEmail` + `accountKey`!")) ;;
    ret false.

(** ** [pollApi] (lines 177-223) *)

Definition deployments_url (accountId project : string) : string :=
  "https://api.cloudflare.com/client/v4/accounts/" ++ accountId
  ++ "/pages/projects/" ++ project
  ++ "/deployments?sort_by=created_on&sort_order=desc".

(** [body.result?.[0]] *)
Definition first_deployment (r : option (list Deployment)) : option Deployment :=
  match r with
  | Some (d :: _) => Some d
  | _ => None
  end.

(** [body.result?.find?.(d => d.deployment_trigger?.metadata?.commit_hash === commitHash)] *)
Definition find_by_commit (commitHash : string) (r : option (list Deployment))
  : option Deployment :=
  match r with
  | Some l =>
      find (fun deployment =>
              commit_hash (metadata (deployment_trigger deployment)) =? commitHash) l
  | None => None
  end.

(** The answer of the deployment-list request is an argument: the caller
    feeds one per poll. *)
Definition pollApi (authHeaders : AuthHeaders) (accountId project commitHash : string)
    (answer : FetchOutcome ApiResponse) : M (option Deployment) :=
  emit (fetch (deployments_url accountId project) authHeaders) ;;
  match answer with
  | FetchThrows e =>
      emit (core_error ("Failed to send request to CF API - network issue? " ++ message e)) ;;
      emit (core_setFailed (FailError e)) ;;
      ret None
  | Responded _ http_status statusText (JsonThrows e) =>
      emit (core_error ("CF API did not return a JSON (possibly down?) - Status code: "
                        ++ string_of_Z http_status ++ " (" ++ statusText ++ ")")) ;;
      emit (core_setFailed (FailError e)) ;;
      ret None
  | Responded _ _ _ (JsonBody body) =>
      if negb (success body) then
        set_waiting false ;;
        let error := match errors body with
                     | e :: _ => e
                     | [] => JSON_stringify_string "Unknown error!"
                     end in
        emit (core_setFailed (FailString
                ("Failed to check deployment status! Error: " ++ error))) ;;
        ret None
      else if negb (truthy commitHash) then ret (first_deployment (result body))
      else ret (find_by_commit commitHash (result body))
  end.

(** ** [updateDeployment] (lines 230-273) *)

Definition environment_label (deployment : Deployment) : string :=
  if environment deployment =? "production" then "Production"
  else "Preview (" ++ branch (metadata (deployment_trigger deployment)) ++ ")".

Definition is_deploy_terminal (stage : Stage) : bool :=
  (name stage =? "deploy") && includes ["success"; "failed"] (status stage).

Definition updateDeployment (ctx : Context) (token : string) (deployment : Deployment)
    (state : DeployState) : M unit :=
  emit (call_updateDeployment token deployment state) ;;
  if negb (truthy token) then ret tt
  else
    let environment := environment_label deployment in
    g <- get ;;
    gh_id <- match ghDeployment g with
             | Some data => ret data
             | None =>
                 env <- ask ;;
                 emit (createDeployment
                         {| cd_owner := repo_owner ctx;
                            cd_repo := repo_repo ctx;
                            cd_ref := commit_hash (metadata (deployment_trigger deployment));
                            cd_environment := environment;
                            cd_production_environment :=
                              (Types.environment deployment =? "production") |}) ;;
                 match createDeployment_result env with
                 | inl data => set_ghDeployment data ;; ret data
                 | inr e => throw e
                 end
             end ;;
    if is_deploy_terminal (latest_stage deployment) then
      env <- ask ;;
      emit (createDeploymentStatus
              {| cs_owner := repo_owner ctx;
                 cs_repo := repo_repo ctx;
                 cs_deployment_id := gh_id;
                 cs_environment := environment;
                 cs_environment_url := url deployment;
                 cs_log_url := "https://dash.cloudflare.com?to=/:account/pages/view/"
                               ++ project_name deployment ++ "/" ++ id deployment;
                 cs_state := state |}) ;;
      match createDeploymentStatus_throws env state with
      | Some e => throw e
      | None => ret tt
      end
    else ret tt.

(** ** [getCloudflareLogs] (lines 88-130) *)

Definition logs_url (accountId project deploymentId : string) : string :=
  "https://api.cloudflare.com/client/v4/accounts/" ++ accountId
  ++ "/pages/projects/" ++ project ++ "/deployments/" ++ deploymentId
  ++ "/history/logs".

(** The statements inside [try]. *)
Definition getCloudflareLogs_try (authHeaders : AuthHeaders)
    (accountId project deploymentId : string) : M string :=
  env <- ask ;;
  emit (fetch (logs_url accountId project deploymentId) authHeaders) ;;
  match logs_response env with
  | FetchThrows e => throw e
  | Responded ok http_status statusText json =>
      if negb ok then
        emit (console_error ("Failed to fetch Cloudflare logs - Status code: "
                             ++ string_of_Z http_status ++ " (" ++ statusText ++ ")")) ;;
        ret ""
      else
        match json with
        | JsonThrows e => throw e
        | JsonBody (Some data) =>
            if (0 <? List.length data)%nat then
              let logs := map (fun line => line) data in
              let last20Logs := slice_last 20 logs in
              let formattedLogs := map (fun line => line) last20Logs in
              ret ("```" ++ concat nl formattedLogs ++ nl ++ "```")
            else ret ""
        | JsonBody None => ret ""
        end
  end.

Definition getCloudflareLogs (authHeaders : AuthHeaders)
    (accountId project deploymentId : string) : M string :=
  try_catch (getCloudflareLogs_try authHeaders accountId project deploymentId)
    (fun error =>
       emit (console_error ("Failed to fetch Cloudflare logs: " ++ message error)) ;;
       ret "").

(** ** Slack *)

(** [slack.send(text).then(() => console.log(sent)).catch(err => console.error(err))]:
    the send is started and the flow goes on without awaiting it. *)
Definition slack_send_and_forget (text sent : string) : M unit :=
  env <- ask ;;
  emit (slack_send text) ;;
  emit (later (match slack_rejects env with
               | None => console_log sent
               | Some err => console_error (message err)
               end)).

Definition failure_text (project commitUrl actor : string) (deployment : Deployment)
    (logs : string) : string :=
  "Deployment failed for project *" ++ project ++ "*" ++ nl
  ++ "Commit: " ++ commitUrl ++ nl
  ++ "Actor: *" ++ actor ++ "*" ++ nl
  ++ "Deployment ID: *" ++ id deployment ++ "*" ++ nl
  ++ "Logs: " ++ logs ++ nl.

Definition success_text (project commitUrl actor accountId : string)
    (deployment : Deployment) (aliasUrl : string) : string :=
  "Deployment succeeded for project *" ++ project ++ "*" ++ nl
  ++ "Commit: " ++ commitUrl ++ nl
  ++ "Actor: *" ++ actor ++ "*" ++ nl
  ++ "Deployment ID: *" ++ id deployment ++ "*" ++ nl
  ++ "Alias URL: " ++ aliasUrl ++ nl
  ++ "Deployment URL: " ++ url deployment ++ nl
  ++ "<https://dash.cloudflare.com?to=/" ++ accountId ++ "/pages/view/"
  ++ project_name deployment ++ "/" ++ id deployment ++ "|Logs>".

(** ** The polling loop of [run] (lines 39-161) *)

(** How one pass through the loop body ends: at a [return], or back at the
    loop test ([continue] or the end of the body) with the current
    [lastStage]. *)
Inductive Flow := Return | Continue (lastStage : string).

(** [deployment.aliases && deployment.aliases.length > 0 ? deployment.aliases[0] : deployment.url] *)
Definition alias_url (deployment : Deployment) : string :=
  match aliases deployment with
  | Some (a :: _) => a
  | _ => url deployment
  end.

Definition skipped_text (deployment : Deployment) : string :=
  "Deployment skipped " ++ id deployment ++ "!".

(** Lines 58-66: stage tracking; yields the new value of [lastStage]. *)
Definition track_stage (ctx : Context) (token : string) (deployment : Deployment)
    (lastStage : string) : M string :=
  let latestStage := latest_stage deployment in
  if negb (name latestStage =? lastStage) then
    let lastStage := name (latest_stage deployment) in
    emit (console_log ("# Now at stage: " ++ lastStage)) ;;
    g <- get ;;
    (if negb (markedAsInProgress g) then
       updateDeployment ctx token deployment in_progress ;;
       set_markedAsInProgress true
     else ret tt) ;;
    ret lastStage
  else ret lastStage.

(** Lines 69-85: the branch taken when the stage status is failed/failure. *)
Definition on_failed (ctx : Context) (inp : Inputs) (authHeaders : AuthHeaders)
    (deployment : Deployment) : M unit :=
  let token := githubToken inp in
  let commitUrl := or_empty (head_commit_url ctx) in
  let actor := or_empty (context_actor ctx) in
  let latestStage := latest_stage deployment in
  set_waiting false ;;
  (if truthy (slackWebHook inp) then
     logs <- getCloudflareLogs authHeaders (accountId inp) (project inp) (id deployment) ;;
     slack_send_and_forget
       (failure_text (project inp) commitUrl actor deployment logs)
       ("Slack message for " ++ name latestStage ++ " failed pipeline sent!")
   else ret tt) ;;
  emit (core_setFailed (FailString
          ("Deployment failed on step: " ++ name latestStage ++ "!"))) ;;
  updateDeployment ctx token deployment st_failure.

(** Lines 133-159: the branch taken when the deploy stage has finished. *)
Definition on_deploy_finished (ctx : Context) (inp : Inputs) (deployment : Deployment)
    : M unit :=
  let token := githubToken inp in
  let commitUrl := or_empty (head_commit_url ctx) in
  let actor := or_empty (context_actor ctx) in
  let latestStage := latest_stage deployment in
  set_waiting false ;;
  let aliasUrl := alias_url deployment in
  emit (core_setOutput "id" (OutString (id deployment))) ;;
  emit (core_setOutput "environment" (OutString (environment deployment))) ;;
  emit (core_setOutput "url" (OutString (url deployment))) ;;
  emit (core_setOutput "alias" (OutString aliasUrl)) ;;
  emit (core_setOutput "success"
          (OutBool (if status (latest_stage deployment) =? "success"
                    then true else false))) ;;
  (if (status (latest_stage deployment) =? "success") && true then
     slack_send_and_forget
       (success_text (project inp) commitUrl actor (accountId inp) deployment aliasUrl)
       "Slack message for DEPLOYMENT succeeded pipeline sent!"
   else ret tt) ;;
  (if negb (token =? "") then
     updateDeployment ctx token deployment
       (if status latestStage =? "success" then st_success else st_failure)
   else ret tt).

(** Lines 49-160: the body once [pollApi] has returned a deployment. *)
Definition handle_deployment (ctx : Context) (inp : Inputs) (authHeaders : AuthHeaders)
    (deployment : Deployment) (lastStage : string) : M Flow :=
  if is_skipped deployment then
    set_waiting false ;;
    emit (console_log (skipped_text deployment)) ;;
    emit (core_setOutput (skipped_text deployment) OutUndefined) ;;
    ret Return
  else
    let latestStage := latest_stage deployment in
    lastStage <- track_stage ctx (githubToken inp) deployment lastStage ;;
    if (status latestStage =? "failed") || (status latestStage =? "failure") then
      on_failed ctx inp authHeaders deployment ;;
      ret Return
    else
      (if (name latestStage =? "deploy")
          && includes ["success"; "failed"] (status latestStage)
       then on_deploy_finished ctx inp deployment
       else ret tt) ;;
      ret (Continue lastStage).

(** Lines 40-47 followed by the rest of the body: one pass through the loop
    body, given the answer to this pass's poll. *)
Definition iteration (ctx : Context) (inp : Inputs) (authHeaders : AuthHeaders)
    (answer : FetchOutcome ApiResponse) (lastStage : string) : M Flow :=
  emit (setTimeout 5000) ;;
  deployment <- pollApi authHeaders (accountId inp) (project inp) (commitHash inp) answer ;;
  match deployment with
  | None =>
      emit (console_log "Waiting for the deployment to start...") ;;
      ret (Continue lastStage)
  | Some deployment => handle_deployment ctx inp authHeaders deployment lastStage
  end.

(** How an observation of the run ends: the function has returned, or the
    supplied answers are used up while the loop would poll again. *)
Inductive RunEnd := Finished | StillPolling.

(** [while (waiting) { ... }], unrolled along the list of poll answers. *)
Fixpoint loop (ctx : Context) (inp : Inputs) (authHeaders : AuthHeaders)
    (lastStage : string) (answers : list (FetchOutcome ApiResponse)) : M RunEnd :=
  g <- get ;;
  if negb (waiting g) then ret Finished
  else
    match answers with
    | [] => ret StillPolling
    | answer :: rest =>
        flow <- iteration ctx inp authHeaders answer lastStage ;;
        match flow with
        | Return => ret Finished
        | Continue lastStage => loop ctx inp authHeaders lastStage rest
        end
    end.

(** Lines 33-34: the token takes precedence over the email/key pair. *)
Definition auth_headers (apiToken accountEmail apiKey : string) : AuthHeaders :=
  if negb (apiToken =? "") then Bearer apiToken else EmailKey accountEmail apiKey.

(** [run] (lines 14-162). *)
Definition run (ctx : Context) (inp : Inputs)
    (answers : list (FetchOutcome ApiResponse)) : M RunEnd :=
  accountEmail <- getInput (accountEmail inp) "accountEmail" false ;;
  apiKey <- getInput (apiKey inp) "apiKey" false ;;
  apiToken <- getInput (apiToken inp) "apiToken" false ;;
  accountId <- getInput (accountId inp) "accountId" true ;;
  project <- getInput (project inp) "project" true ;;
  token <- getInput (githubToken inp) "githubToken" false ;;
  commitHash <- getInput (commitHash inp) "commitHash" false ;;
  slackWebHook <- getInput (slackWebHook inp) "slackWebHook" false ;;
  valid <- validateAuthInputs apiToken accountEmail apiKey ;;
  if negb valid then ret Finished
  else
    let authHeaders := auth_headers apiToken accountEmail apiKey in
    emit (console_log "Waiting for Pages to finish building...") ;;
    loop ctx
      {| accountEmail := accountEmail; apiKey := apiKey; apiToken := apiToken;
         accountId := accountId; project := project; githubToken := token;
         commitHash := commitHash; slackWebHook := slackWebHook |}
      authHeaders "" answers.

(** ** Sample data *)

Module Samples.

Definition ctx : Context :=
  {| repo_owner := "acme"; repo_repo := "site";
     head_commit_url := Some "https://github.example/acme/site/commit/abc123";
     context_actor := Some "octocat" |}.

Definition inp : Inputs :=
  {| accountEmail := ""; apiKey := ""; apiToken := "cf-token";
     accountId := "acct"; project := "site"; githubToken := "gh-token";
     commitHash := ""; slackWebHook := "https://hooks.slack.example/T0/B0" |}.

Definition env : Env :=
  {| logs_response := Responded true 200 "OK" (JsonBody (Some ["line one"; "line two"]));
     slack_rejects := None;
     createDeployment_result := inl 42%Z;
     createDeploymentStatus_throws := fun _ => None |}.

Definition deployment (stage_name stage_status : string) : Deployment :=
  {| id := "d1"; project_name := "site"; environment := "production";
     url := "https://prod.example";
     aliases := Some ["https://abc.preview.example"];
     is_skipped := false;
     latest_stage := {| name := stage_name; status := stage_status |};
     deployment_trigger :=
       {| metadata := {| branch := "main"; commit_hash := "abc123" |} |} |}.

Definition answer (d : Deployment) : FetchOutcome ApiResponse :=
  Responded true 200 "OK"
    (JsonBody {| success := true; errors := []; result := Some [d] |}).

Definition skipped : Deployment :=
  {| id := "d0"; project_name := "site"; environment := "preview";
     url := "https://d0.example"; aliases := None; is_skipped := true;
     latest_stage := {| name := "queued"; status := "idle" |};
     deployment_trigger :=
       {| metadata := {| branch := "docs"; commit_hash := "fff000" |} |} |}.

Definition auth : AuthHeaders := Bearer "cf-token".

End Samples.


(** * Properties *)

(** ** Strings and lists *)

Lemma eqb_empty_false (s : string) : s <> "" -> (s =? "") = false.
Proof. intro H. apply String.eqb_neq. exact H. Qed.

Lemma truthy_true (s : string) : truthy s = true <-> s <> "".
Proof.
  unfold truthy. destruct (String.eqb_spec s ""); simpl; split; congruence.
Qed.

Lemma truthy_false (s : string) : truthy s = false <-> s = "".
Proof.
  unfold truthy. destruct (String.eqb_spec s ""); simpl; split; congruence.
Qed.

Lemma slice_last_length {A} (n : nat) (l : list A) :
  (List.length (slice_last n l) <= n)%nat.
Proof. unfold slice_last. rewrite length_skipn. lia. Qed.

Lemma slice_last_length_min {A} (n : nat) (l : list A) :
  List.length (slice_last n l) = Nat.min n (List.length l).
Proof. unfold slice_last. rewrite length_skipn. lia. Qed.

Lemma slice_last_suffix {A} (n : nat) (l : list A) :
  exists earlier, l = (earlier ++ slice_last n l)%list.
Proof.
  exists (firstn (List.length l - n) l). unfold slice_last.
  symmetry. apply firstn_skipn.
Qed.

Lemma slice_last_short {A} (n : nat) (l : list A) :
  (List.length l <= n)%nat -> slice_last n l = l.
Proof.
  intro H. unfold slice_last.
  replace (List.length l - n)%nat with 0%nat by lia. reflexivity.
Qed.

Lemma is_deploy_terminal_spec (stage : Stage) :
  is_deploy_terminal stage = true <->
  name stage = "deploy" /\ (status stage = "success" \/ status stage = "failed").
Proof.
  unfold is_deploy_terminal, includes. cbn [existsb].
  rewrite andb_true_iff, !orb_true_iff, !String.eqb_eq.
  split.
  - intros [Hn [Hs | [Hs | Hs]]]; [auto | auto | discriminate].
  - intros [Hn [Hs | Hs]]; auto.
Qed.

(** ** Running computations *)

Ltac unfold_js :=
  unfold set_waiting, set_ghDeployment, set_markedAsInProgress,
    bind, ret, emit, get, put, ask, throw, try_catch,
    result_of, globals_of, trace_of in *.

Lemma bind_ok {A B} (c : M A) (k : A -> M B) env g a g1 t1 :
  c env g = (Ok a, g1, t1) ->
  bind c k env g =
  (result_of (k a env g1), globals_of (k a env g1), (t1 ++ trace_of (k a env g1))%list).
Proof.
  intro H. unfold bind, result_of, globals_of, trace_of. rewrite H.
  destruct (k a env g1) as [[r g2] t2]. reflexivity.
Qed.

(** A step that changes nothing and says nothing can be skipped. *)
Lemma bind_silent {A B} (c : M A) (k : A -> M B) env g a :
  c env g = (Ok a, g, []) -> bind c k env g = k a env g.
Proof.
  intro H. unfold bind. rewrite H. destruct (k a env g) as [[r g2] t2]. reflexivity.
Qed.

Lemma bind_emit {B} (e : event) (k : unit -> M B) env g :
  bind (emit e) k env g =
  (result_of (k tt env g), globals_of (k tt env g), e :: trace_of (k tt env g)).
Proof.
  unfold bind, emit, result_of, globals_of, trace_of.
  destruct (k tt env g) as [[r g2] t2]. reflexivity.
Qed.

Lemma bind_throw {A B} (c : M A) (k : A -> M B) env g e g1 t1 :
  c env g = (Throw e, g1, t1) -> bind c k env g = (Throw e, g1, t1).
Proof. intro H. unfold bind. rewrite H. reflexivity. Qed.

(** ** updateDeployment *)

Definition is_status_push (e : event) : bool :=
  match e with createDeploymentStatus _ => true | _ => false end.

Definition deployment_args (ctx : Context) (deployment : Deployment) : CreateDeploymentArgs :=
  {| cd_owner := repo_owner ctx;
     cd_repo := repo_repo ctx;
     cd_ref := commit_hash (metadata (deployment_trigger deployment));
     cd_environment := environment_label deployment;
     cd_production_environment := (environment deployment =? "production") |}.

Definition status_args (ctx : Context) (deployment : Deployment) (gh_id : Z)
    (state : DeployState) : CreateDeploymentStatusArgs :=
  {| cs_owner := repo_owner ctx;
     cs_repo := repo_repo ctx;
     cs_deployment_id := gh_id;
     cs_environment := environment_label deployment;
     cs_environment_url := url deployment;
     cs_log_url := "https://dash.cloudflare.com?to=/:account/pages/view/"
                   ++ project_name deployment ++ "/" ++ id deployment;
     cs_state := state |}.

Definition with_ghDeployment (g : Globals) (data : Z) : Globals :=
  {| waiting := waiting g; ghDeployment := Some data;
     markedAsInProgress := markedAsInProgress g |}.

Lemma updateDeployment_no_token ctx deployment state env g :
  updateDeployment ctx "" deployment state env g =
  (Ok tt, g, [call_updateDeployment "" deployment state]).
Proof. reflexivity. Qed.

(** With a token and a record already created, only the status call can
    happen, and it does exactly at the finished deploy stage. *)
Lemma updateDeployment_cached ctx token deployment state env g data :
  token <> "" -> ghDeployment g = Some data ->
  updateDeployment ctx token deployment state env g =
  if is_deploy_terminal (latest_stage deployment) then
    (match createDeploymentStatus_throws env state with
     | Some e => Throw e
     | None => Ok tt
     end, g,
     [call_updateDeployment token deployment state;
      createDeploymentStatus (status_args ctx deployment data state)])
  else (Ok tt, g, [call_updateDeployment token deployment state]).
Proof.
  intros Ht Hg. unfold updateDeployment, truthy.
  rewrite (eqb_empty_false _ Ht). unfold_js. simpl. rewrite Hg.
  destruct (is_deploy_terminal (latest_stage deployment)); [| reflexivity].
  destruct (createDeploymentStatus_throws env state); reflexivity.
Qed.

(** With a token and no record yet, the record is created first. *)
Lemma updateDeployment_fresh ctx token deployment state env g :
  token <> "" -> ghDeployment g = None ->
  updateDeployment ctx token deployment state env g =
  match createDeployment_result env with
  | inr e =>
      (Throw e, g,
       [call_updateDeployment token deployment state;
        createDeployment (deployment_args ctx deployment)])
  | inl data =>
      if is_deploy_terminal (latest_stage deployment) then
        (match createDeploymentStatus_throws env state with
         | Some e => Throw e
         | None => Ok tt
         end, with_ghDeployment g data,
         [call_updateDeployment token deployment state;
          createDeployment (deployment_args ctx deployment);
          createDeploymentStatus (status_args ctx deployment data state)])
      else
        (Ok tt, with_ghDeployment g data,
         [call_updateDeployment token deployment state;
          createDeployment (deployment_args ctx deployment)])
  end.
Proof.
  intros Ht Hg. unfold updateDeployment, truthy.
  rewrite (eqb_empty_false _ Ht). unfold_js. simpl. rewrite Hg.
  destruct (createDeployment_result env) as [data | e]; [| reflexivity].
  simpl.
  destruct (is_deploy_terminal (latest_stage deployment)); [| reflexivity].
  destruct (createDeploymentStatus_throws env state); reflexivity.
Qed.

(** C6. [updateDeployment] with an empty token does nothing (only its own
    entry is recorded, the globals are untouched).  With a non-empty token a
    deployment-status record is pushed only when the latest stage is "deploy"
    with status "success" or "failed", and then with the requested state; at
    any other stage the call pushes no status and creates the deployment
    record exactly when none has been created before (the record is then
    cached in [ghDeployment]). *)
Theorem updateDeployment_pushes_status_only_at_finished_deploy :
  forall ctx token deployment state env g,
    let r := updateDeployment ctx token deployment state env g in
    (token = "" ->
       r = (Ok tt, g, [call_updateDeployment token deployment state]))
    /\ (token <> "" ->
        forall a, In (createDeploymentStatus a) (trace_of r) ->
          name (latest_stage deployment) = "deploy"
          /\ (status (latest_stage deployment) = "success"
              \/ status (latest_stage deployment) = "failed")
          /\ cs_state a = state)
    /\ (token <> "" ->
        is_deploy_terminal (latest_stage deployment) = false ->
        existsb is_status_push (trace_of r) = false
        /\ trace_of r =
           call_updateDeployment token deployment state ::
           match ghDeployment g with
           | None => [createDeployment (deployment_args ctx deployment)]
           | Some _ => []
           end
        /\ (forall data, createDeployment_result env = inl data ->
              result_of r = Ok tt
              /\ ghDeployment (globals_of r) =
                 Some (match ghDeployment g with Some old => old | None => data end))).
Proof.
  intros ctx token deployment state env g r. subst r.
  split; [| split].
  - intros ->. apply updateDeployment_no_token.
  - intros Ht a Hin.
    destruct (ghDeployment g) as [data |] eqn:Hg.
    + rewrite (updateDeployment_cached _ _ _ _ _ _ _ Ht Hg) in Hin.
      destruct (is_deploy_terminal (latest_stage deployment)) eqn:Hterm;
        simpl in Hin.
      * apply is_deploy_terminal_spec in Hterm. destruct Hterm as [Hn Hs].
        destruct Hin as [Hin | [Hin | []]]; [discriminate |].
        injection Hin as <-. auto.
      * destruct Hin as [Hin | []]. discriminate.
    + rewrite (updateDeployment_fresh _ _ _ _ _ _ Ht Hg) in Hin.
      destruct (createDeployment_result env) as [data | e].
      * destruct (is_deploy_terminal (latest_stage deployment)) eqn:Hterm;
          simpl in Hin.
        -- apply is_deploy_terminal_spec in Hterm. destruct Hterm as [Hn Hs].
           destruct Hin as [Hin | [Hin | [Hin | []]]]; try discriminate.
           injection Hin as <-. auto.
        -- destruct Hin as [Hin | [Hin | []]]; discriminate.
      * simpl in Hin. destruct Hin as [Hin | [Hin | []]]; discriminate.
  - intros Ht Hterm.
    destruct (ghDeployment g) as [old |] eqn:Hg.
    + rewrite (updateDeployment_cached _ _ _ _ _ _ _ Ht Hg), Hterm.
      simpl. split; [reflexivity | split; [reflexivity |]].
      intros data _. split; [reflexivity | exact Hg].
    + rewrite (updateDeployment_fresh _ _ _ _ _ _ Ht Hg), Hterm.
      destruct (createDeployment_result env) as [data | e]; simpl.
      * split; [reflexivity | split; [reflexivity |]].
        intros d Hd. injection Hd as <-. split; reflexivity.
      * split; [reflexivity | split; [reflexivity |]].
        intros d Hd. discriminate.
Qed.

(** ** getCloudflareLogs *)

(** The fenced block built from the fetched lines. *)
Definition fenced_tail (data : list string) : string :=
  "```" ++ concat nl (slice_last 20 data) ++ nl ++ "```".

Lemma getCloudflareLogs_try_lines auth accountId project deploymentId env g
    ok http_status statusText line lines :
  logs_response env =
    Responded ok http_status statusText (JsonBody (Some (line :: lines))) ->
  ok = true ->
  getCloudflareLogs_try auth accountId project deploymentId env g =
  (Ok (fenced_tail (line :: lines)), g,
   [fetch (logs_url accountId project deploymentId) auth]).
Proof.
  intros Hresp ->. unfold getCloudflareLogs_try. unfold_js. rewrite Hresp.
  cbn [negb List.length Nat.ltb Nat.leb]. unfold fenced_tail.
  rewrite !map_id. reflexivity.
Qed.

(** C9. Whatever the log request yields, [getCloudflareLogs] returns
    normally and leaves the globals alone.  A thrown network error, a
    non-success HTTP status, a body that does not parse, a body without a
    [data] array and an empty [data] array all give the empty string; a
    non-empty array gives its last 20 lines (all of them when there are
    fewer), joined by newlines inside a code fence: the lines kept are the
    end of the array and there are min(20, length) of them. *)
Theorem getCloudflareLogs_never_throws :
  forall auth accountId project deploymentId env g,
    let r := getCloudflareLogs auth accountId project deploymentId env g in
    exists logs,
      result_of r = Ok logs
      /\ globals_of r = g
      /\ match logs_response env with
         | Responded true _ _ (JsonBody (Some (line :: lines))) =>
             let data := line :: lines in
             exists earlier kept,
               data = (earlier ++ kept)%list
               /\ List.length kept = Nat.min 20 (List.length data)
               /\ logs = "```" ++ concat nl kept ++ nl ++ "```"
         | _ => logs = ""
         end.
Proof.
  intros auth accountId project deploymentId env g r. subst r.
  unfold getCloudflareLogs.
  destruct (logs_response env) as [e | ok http_status statusText json] eqn:Hresp.
  - exists "". unfold getCloudflareLogs_try. unfold_js. rewrite Hresp.
    simpl. auto.
  - destruct ok.
    + destruct json as [e | [[| line lines] |]].
      * exists "". unfold getCloudflareLogs_try. unfold_js. rewrite Hresp.
        simpl. auto.
      * exists "". unfold getCloudflareLogs_try. unfold_js. rewrite Hresp.
        simpl. auto.
      * exists (fenced_tail (line :: lines)). unfold try_catch.
        rewrite (getCloudflareLogs_try_lines _ _ _ _ _ _ _ _ _ _ _ Hresp eq_refl).
        unfold result_of, globals_of. cbn [fst snd].
        split; [reflexivity | split; [reflexivity |]]. cbv zeta.
        destruct (slice_last_suffix 20 (line :: lines)) as [earlier Hsuffix].
        exists earlier, (slice_last 20 (line :: lines)).
        split; [exact Hsuffix | split; [apply slice_last_length_min | reflexivity]].
      * exists "". unfold getCloudflareLogs_try. unfold_js. rewrite Hresp.
        simpl. auto.
    + exists "". unfold getCloudflareLogs_try. unfold_js. rewrite Hresp.
      simpl. auto.
Qed.

(** The value is determined by the environment alone. *)
Lemma getCloudflareLogs_total auth accountId project deploymentId env g :
  exists logs t,
    getCloudflareLogs auth accountId project deploymentId env g = (Ok logs, g, t)
    /\ forallb (fun e => match e with fetch _ _ | console_error _ => true | _ => false end) t
       = true.
Proof.
  unfold getCloudflareLogs, getCloudflareLogs_try. unfold_js.
  destruct (logs_response env) as [e | [] http_status statusText [e | [[| line lines] |]]];
    simpl; eauto.
Qed.

(** ** validateAuthInputs *)

Definition auth_error : event :=
  core_setFailed (FailString
    "Please specify authentication details! Set either `apiToken` or `accountEmail` + `accountKey`!").

(** A request to the Cloudflare API or the timer that precedes a poll. *)
Definition is_poll (e : event) : bool :=
  match e with fetch _ _ | setTimeout _ => true | _ => false end.

(** The reading of "exactly one credential form": the token alone, or the
    email/key pair alone. *)
Definition one_credential_form (token email key : string) : Prop :=
  (token <> "" /\ email = "" /\ key = "")
  \/ (token = "" /\ email <> "" /\ key <> "").

Lemma validateAuthInputs_cases token email key env g :
  validateAuthInputs token email key env g =
  if negb (token =? "") || (negb (email =? "") && negb (key =? ""))
  then (Ok true, g, [])
  else (Ok false, g, [auth_error]).
Proof.
  unfold validateAuthInputs.
  destruct (token =? ""), (email =? ""), (key =? ""); reflexivity.
Qed.

Lemma getInput_optional value name env g :
  getInput value name false env g = (Ok value, g, []).
Proof. reflexivity. Qed.

Lemma getInput_required value name env g :
  value <> "" -> getInput value name true env g = (Ok value, g, []).
Proof.
  intro H. unfold getInput, truthy. rewrite (eqb_empty_false _ H). reflexivity.
Qed.

(** The statements of [run] after the inputs have been read. *)
Lemma run_with_inputs ctx inp answers env g :
  accountId inp <> "" -> project inp <> "" ->
  run ctx inp answers env g =
  (valid <- validateAuthInputs (apiToken inp) (accountEmail inp) (apiKey inp) ;;
   if negb valid then ret Finished
   else
     emit (console_log "Waiting for Pages to finish building...") ;;
     loop ctx inp (auth_headers (apiToken inp) (accountEmail inp) (apiKey inp))
       "" answers) env g.
Proof.
  intros Ha Hp. unfold run.
  repeat (erewrite bind_silent; [| first [ apply getInput_optional
                                         | apply getInput_required; assumption ] ]).
  destruct inp; reflexivity.
Qed.

(** C5, as the code has it.  Validation succeeds exactly when the token is
    non-empty or both the account email and the API key are non-empty; it
    does not reject a token given together with an email or key, and the
    token is then the credential used.  When it fails, the configuration
    error is the only thing reported: the run makes no request and starts no
    timer, and with the two required inputs present it consists of that
    report alone. *)
Theorem validateAuthInputs_token_or_pair :
  forall ctx inp answers env g,
    let token := apiToken inp in
    let email := accountEmail inp in
    let key := apiKey inp in
    let v := validateAuthInputs token email key env g in
    (result_of v = Ok true <-> token <> "" \/ (email <> "" /\ key <> ""))
    /\ (token <> "" -> v = (Ok true, g, [])
                       /\ auth_headers token email key = Bearer token)
    /\ (token = "" -> email <> "" -> key <> "" ->
        v = (Ok true, g, []) /\ auth_headers token email key = EmailKey email key)
    /\ (token = "" -> email = "" \/ key = "" ->
        v = (Ok false, g, [auth_error])
        /\ existsb is_poll (trace_of (run ctx inp answers env g)) = false
        /\ (accountId inp <> "" -> project inp <> "" ->
            run ctx inp answers env g = (Ok Finished, g, [auth_error]))).
Proof.
  intros ctx inp answers env g token email key v. subst v.
  rewrite validateAuthInputs_cases.
  split; [| split; [| split]].
  - destruct (String.eqb_spec token ""), (String.eqb_spec email ""),
      (String.eqb_spec key ""); simpl; split; intro H;
      try reflexivity; try discriminate; try tauto.
  - intro Ht. unfold auth_headers. rewrite (eqb_empty_false _ Ht). auto.
  - intros Ht He Hk. unfold auth_headers.
    rewrite Ht, (eqb_empty_false _ He), (eqb_empty_false _ Hk). auto.
  - intros Ht Hek.
    assert (Hv : forall env' g',
               validateAuthInputs token email key env' g' = (Ok false, g', [auth_error])).
    { intros env' g'. rewrite validateAuthInputs_cases, Ht.
      destruct Hek as [-> | ->]; simpl; [reflexivity |].
      destruct (email =? ""); reflexivity. }
    split; [| split].
    + rewrite <- (validateAuthInputs_cases token email key env g). apply Hv.
    + unfold run, getInput, truthy.
      fold token email key.
      destruct (accountId inp =? ""); [reflexivity |].
      destruct (project inp =? ""); [reflexivity |].
      unfold_js. simpl. rewrite Hv. reflexivity.
    + intros Ha Hp. rewrite (run_with_inputs _ _ _ _ _ Ha Hp).
      fold token email key.
      rewrite (bind_ok _ _ _ _ _ _ _ (Hv env g)). reflexivity.
Qed.

(** C5 as stated fails: with a token and an email/key pair both supplied,
    which is not "exactly one form", validation succeeds, nothing is
    reported, and the run goes on to poll with the token. *)
Lemma both_credential_forms_accepted :
  validateAuthInputs "cf-token" "me@example.com" "key" Samples.env initial
    = (Ok true, initial, [])
  /\ ~ one_credential_form "cf-token" "me@example.com" "key"
  /\ trace_of (run Samples.ctx
                 {| accountEmail := "me@example.com"; apiKey := "key";
                    apiToken := "cf-token"; accountId := "acct"; project := "site";
                    githubToken := ""; commitHash := ""; slackWebHook := "" |}
                 [FetchThrows {| message := "offline" |}] Samples.env initial)
     = [console_log "Waiting for Pages to finish building...";
        setTimeout 5000;
        fetch (deployments_url "acct" "site") (Bearer "cf-token");
        core_error "Failed to send request to CF API - network issue? offline";
        core_setFailed (FailError {| message := "offline" |});
        console_log "Waiting for the deployment to start..."].
Proof.
  split; [reflexivity | split; [| reflexivity]].
  intros [(_ & He & _) | (Ht & _)]; discriminate.
Qed.

(** ** pollApi *)

Definition waiting_text : string := "Waiting for the deployment to start...".

Definition with_waiting (g : Globals) (b : bool) : Globals :=
  {| waiting := b; ghDeployment := ghDeployment g;
     markedAsInProgress := markedAsInProgress g |}.

Lemma with_waiting_same g : with_waiting g (waiting g) = g.
Proof. destruct g; reflexivity. Qed.

(** The first reported error, or the placeholder. *)
Definition first_error (body : ApiResponse) : string :=
  match errors body with
  | e :: _ => e
  | [] => JSON_stringify_string "Unknown error!"
  end.

Definition api_error_text (body : ApiResponse) : string :=
  "Failed to check deployment status! Error: " ++ first_error body.

Lemma pollApi_body auth accountId project commitHash ok http_status statusText body env g :
  pollApi auth accountId project commitHash
    (Responded ok http_status statusText (JsonBody body)) env g =
  if success body then
    (Ok (if truthy commitHash then find_by_commit commitHash (result body)
         else first_deployment (result body)),
     g, [fetch (deployments_url accountId project) auth])
  else
    (Ok None, with_waiting g false,
     [fetch (deployments_url accountId project) auth;
      core_setFailed (FailString (api_error_text body))]).
Proof.
  unfold pollApi. destruct (success body); simpl.
  - destruct (truthy commitHash); reflexivity.
  - reflexivity.
Qed.

Lemma pollApi_transport_failure auth accountId project commitHash e env g :
  pollApi auth accountId project commitHash (FetchThrows e) env g =
  (Ok None, g,
   [fetch (deployments_url accountId project) auth;
    core_error ("Failed to send request to CF API - network issue? " ++ message e);
    core_setFailed (FailError e)]).
Proof. reflexivity. Qed.

Lemma pollApi_not_json auth accountId project commitHash ok http_status statusText e env g :
  pollApi auth accountId project commitHash
    (Responded ok http_status statusText (JsonThrows e)) env g =
  (Ok None, g,
   [fetch (deployments_url accountId project) auth;
    core_error ("CF API did not return a JSON (possibly down?) - Status code: "
                ++ string_of_Z http_status ++ " (" ++ statusText ++ ")");
    core_setFailed (FailError e)]).
Proof. reflexivity. Qed.

(** A poll that yields a deployment has done nothing but the request. *)
Lemma pollApi_found auth accountId project commitHash answer env g d :
  result_of (pollApi auth accountId project commitHash answer env g) = Ok (Some d) ->
  pollApi auth accountId project commitHash answer env g =
  (Ok (Some d), g, [fetch (deployments_url accountId project) auth]).
Proof.
  destruct answer as [e | ok http_status statusText [e | body]].
  - rewrite pollApi_transport_failure. discriminate.
  - rewrite pollApi_not_json. discriminate.
  - rewrite pollApi_body. destruct (success body); unfold result_of; simpl.
    + intros [= ->]. reflexivity.
    + discriminate.
Qed.

Lemma find_by_commit_first commitHash l :
  match find_by_commit commitHash (Some l) with
  | Some d =>
      exists newer older,
        l = (newer ++ d :: older)%list
        /\ commit_hash (metadata (deployment_trigger d)) = commitHash
        /\ Forall (fun x => commit_hash (metadata (deployment_trigger x)) <> commitHash)
             newer
  | None =>
      Forall (fun x => commit_hash (metadata (deployment_trigger x)) <> commitHash) l
  end.
Proof.
  unfold find_by_commit. induction l as [| x l IH]; simpl.
  - constructor.
  - destruct (String.eqb_spec (commit_hash (metadata (deployment_trigger x))) commitHash)
      as [Heq | Hne].
    + exists [], l. repeat split; auto.
    + destruct (find _ l) as [d |].
      * destruct IH as (newer & older & -> & Hd & Hall).
        exists (x :: newer), older. repeat split; auto.
      * constructor; assumption.
Qed.

(** ** One pass through the loop *)

Lemma loop_stopped ctx inp auth lastStage answers env g :
  waiting g = false ->
  loop ctx inp auth lastStage answers env g = (Ok Finished, g, []).
Proof.
  intro H. destruct answers; simpl; unfold_js; rewrite H; reflexivity.
Qed.

Lemma loop_out_of_answers ctx inp auth lastStage env g :
  waiting g = true ->
  loop ctx inp auth lastStage [] env g = (Ok StillPolling, g, []).
Proof. intro H. simpl. unfold_js. rewrite H. reflexivity. Qed.

Lemma loop_step ctx inp auth lastStage answer rest env g :
  waiting g = true ->
  loop ctx inp auth lastStage (answer :: rest) env g =
  (flow <- iteration ctx inp auth answer lastStage ;;
   match flow with
   | Return => ret Finished
   | Continue lastStage => loop ctx inp auth lastStage rest
   end) env g.
Proof.
  intro H. cbn [loop]. unfold bind at 1. unfold get. rewrite H. cbn [negb].
  match goal with |- context [?c env g] => destruct (c env g) as [[r g'] t] end.
  reflexivity.
Qed.

(** A pass in which [pollApi] returns nothing logs the waiting message and
    goes back to the loop test. *)
Lemma iteration_absent ctx inp auth answer lastStage env g g1 t1 :
  pollApi auth (accountId inp) (project inp) (commitHash inp) answer env g
    = (Ok None, g1, t1) ->
  iteration ctx inp auth answer lastStage env g =
  (Ok (Continue lastStage), g1, (setTimeout 5000 :: t1 ++ [console_log waiting_text])%list).
Proof.
  intro H. unfold iteration. unfold bind at 1. unfold emit at 1.
  rewrite (bind_ok _ _ _ _ _ _ _ H). reflexivity.
Qed.

Lemma iteration_found ctx inp auth answer lastStage env g d :
  result_of (pollApi auth (accountId inp) (project inp) (commitHash inp) answer env g)
    = Ok (Some d) ->
  iteration ctx inp auth answer lastStage env g =
  let r := handle_deployment ctx inp auth d lastStage env g in
  (result_of r, globals_of r,
   (setTimeout 5000 :: fetch (deployments_url (accountId inp) (project inp)) auth
      :: trace_of r)%list).
Proof.
  intro H. apply pollApi_found in H. unfold iteration.
  unfold bind at 1. unfold emit at 1.
  rewrite (bind_ok _ _ _ _ _ _ _ H).
  destruct (handle_deployment ctx inp auth d lastStage env g) as [[r g'] t].
  reflexivity.
Qed.

(** ** Skipped deployments *)

Lemma handle_deployment_skipped ctx inp auth d lastStage env g :
  is_skipped d = true ->
  handle_deployment ctx inp auth d lastStage env g =
  (Ok Return, with_waiting g false,
   [console_log (skipped_text d); core_setOutput (skipped_text d) OutUndefined]).
Proof. intro H. unfold handle_deployment. rewrite H. reflexivity. Qed.

(** C8. When the poll returns a deployment with [is_skipped = true], the
    run ends on that very pass, whatever answers would follow: after the
    timer and the request it logs the skip, publishes it as an output and
    returns normally.  Nothing else happens: no call to [updateDeployment]
    or GitHub, no Slack message, no [setFailed]. *)
Theorem skipped_deployment_ends_run_quietly :
  forall ctx inp auth lastStage answer rest env g d,
    waiting g = true ->
    result_of (pollApi auth (accountId inp) (project inp) (commitHash inp) answer env g)
      = Ok (Some d) ->
    is_skipped d = true ->
    loop ctx inp auth lastStage (answer :: rest) env g =
    (Ok Finished, with_waiting g false,
     [setTimeout 5000;
      fetch (deployments_url (accountId inp) (project inp)) auth;
      console_log (skipped_text d);
      core_setOutput (skipped_text d) OutUndefined]).
Proof.
  intros ctx inp auth lastStage answer rest env g d Hw Hpoll Hskip.
  rewrite (loop_step _ _ _ _ _ _ _ _ Hw).
  erewrite bind_ok.
  2:{ rewrite (iteration_found _ _ _ _ _ _ _ _ Hpoll).
      rewrite (handle_deployment_skipped _ _ _ _ _ _ _ Hskip). reflexivity. }
  reflexivity.
Qed.

(** ** Waiting for the deployment to appear *)

(** An answer in which the API reports success but no deployment of the
    wanted commit is listed. *)
Definition no_match (commitHash : string) (answer : FetchOutcome ApiResponse) : Prop :=
  exists ok http_status statusText body,
    answer = Responded ok http_status statusText (JsonBody body)
    /\ success body = true
    /\ find_by_commit commitHash (result body) = None.

Definition waiting_pass (inp : Inputs) (auth : AuthHeaders) : list event :=
  [setTimeout 5000;
   fetch (deployments_url (accountId inp) (project inp)) auth;
   console_log waiting_text].

Lemma loop_keeps_waiting ctx inp auth lastStage answers env g :
  commitHash inp <> "" ->
  waiting g = true ->
  Forall (no_match (commitHash inp)) answers ->
  loop ctx inp auth lastStage answers env g =
  (Ok StillPolling, g, flat_map (fun _ => waiting_pass inp auth) answers).
Proof.
  intros Hc Hw Hall. induction Hall as [| answer rest Hno _ IH].
  - apply loop_out_of_answers, Hw.
  - destruct Hno as (ok & http_status & statusText & body & -> & Hs & Hfind).
    rewrite (loop_step _ _ _ _ _ _ _ _ Hw).
    erewrite bind_ok.
    2:{ apply iteration_absent. rewrite pollApi_body, Hs.
        rewrite (proj2 (truthy_true _) Hc), Hfind. reflexivity. }
    cbv beta iota. rewrite IH. reflexivity.
Qed.

(** C10. On a parsed, successful answer [pollApi] only makes the request
    and returns: with an empty [commitHash], the first entry of the list
    (nothing for an empty or missing list); with a non-empty [commitHash],
    the first entry whose trigger commit hash equals it, every entry before
    it having another hash, and nothing when no entry has that hash.  As
    long as the answers list no such entry the loop logs the waiting message
    and polls again: however many such answers are supplied, it goes through
    all of them unchanged and is still polling. *)
Theorem pollApi_selects_deployment_or_waits :
  forall ctx inp auth lastStage ok http_status statusText body env g,
    success body = true ->
    let commitHash := commitHash inp in
    let r := pollApi auth (accountId inp) (project inp) commitHash
               (Responded ok http_status statusText (JsonBody body)) env g in
    globals_of r = g
    /\ trace_of r = [fetch (deployments_url (accountId inp) (project inp)) auth]
    /\ (commitHash = "" ->
        result_of r = Ok (first_deployment (result body))
        /\ forall newest older, result body = Some (newest :: older) ->
             result_of r = Ok (Some newest))
    /\ (commitHash <> "" ->
        forall l, result body = Some l ->
          match result_of r with
          | Ok (Some d) =>
              exists newer older,
                l = (newer ++ d :: older)%list
                /\ commit_hash (metadata (deployment_trigger d)) = commitHash
                /\ Forall (fun x => commit_hash (metadata (deployment_trigger x))
                                    <> commitHash) newer
          | Ok None =>
              Forall (fun x => commit_hash (metadata (deployment_trigger x))
                               <> commitHash) l
          | Throw _ => False
          end)
    /\ (commitHash <> "" ->
        forall answers,
          waiting g = true ->
          Forall (no_match commitHash) answers ->
          loop ctx inp auth lastStage answers env g =
          (Ok StillPolling, g, flat_map (fun _ => waiting_pass inp auth) answers)).
Proof.
  intros ctx inp auth lastStage ok http_status statusText body env g Hs commitHash r.
  subst r. rewrite pollApi_body, Hs.
  unfold globals_of, trace_of, result_of. cbn [fst snd].
  split; [reflexivity | split; [reflexivity | split; [| split]]].
  - intro Hc. rewrite (proj2 (truthy_false _) Hc). split; [reflexivity |].
    intros newest older Hr. rewrite Hr. reflexivity.
  - intros Hc l Hr. rewrite (proj2 (truthy_true _) Hc), Hr.
    apply find_by_commit_first.
  - intros Hc answers Hw Hall. apply loop_keeps_waiting; assumption.
Qed.

(** ** Reasoning about what a computation may do *)

(** Every call made by [c], from any state, satisfies [P]. *)
Definition only {A} (P : event -> Prop) (c : M A) : Prop :=
  forall env g, Forall P (trace_of (c env g)).

(** [c] never touches the one-shot guard. *)
Definition keeps_guard {A} (c : M A) : Prop :=
  forall env g, markedAsInProgress (globals_of (c env g)) = markedAsInProgress g.

Section Only.

Context {A B : Type} (P : event -> Prop).

Lemma only_ret (a : A) : only P (ret a).
Proof. intros env g. constructor. Qed.

Lemma only_throw (e : JsError) : only P (@throw A e).
Proof. intros env g. constructor. Qed.

Lemma only_emit (e : event) : P e -> only P (emit e).
Proof. intros H env g. repeat constructor. exact H. Qed.

Lemma only_bind (c : M A) (k : A -> M B) :
  only P c -> (forall a, only P (k a)) -> only P (bind c k).
Proof.
  intros Hc Hk env g. specialize (Hc env g). unfold bind, trace_of in *.
  destruct (c env g) as [[[a | e] g1] t1]; simpl in *.
  - specialize (Hk a env g1). unfold trace_of in Hk.
    destruct (k a env g1) as [[r g2] t2]; simpl in *.
    apply Forall_app. split; assumption.
  - exact Hc.
Qed.

Lemma only_try_catch (c : M A) (h : JsError -> M A) :
  only P c -> (forall e, only P (h e)) -> only P (try_catch c h).
Proof.
  intros Hc Hh env g. specialize (Hc env g). unfold try_catch, trace_of in *.
  destruct (c env g) as [[[a | e] g1] t1]; simpl in *.
  - exact Hc.
  - specialize (Hh e env g1). unfold trace_of in Hh.
    destruct (h e env g1) as [[r g2] t2]; simpl in *.
    apply Forall_app. split; assumption.
Qed.

Lemma keeps_guard_ret (a : A) : keeps_guard (ret a).
Proof. intros env g. reflexivity. Qed.

Lemma keeps_guard_throw (e : JsError) : keeps_guard (@throw A e).
Proof. intros env g. reflexivity. Qed.

Lemma keeps_guard_bind (c : M A) (k : A -> M B) :
  keeps_guard c -> (forall a, keeps_guard (k a)) -> keeps_guard (bind c k).
Proof.
  intros Hc Hk env g. specialize (Hc env g). unfold bind, globals_of in *.
  destruct (c env g) as [[[a | e] g1] t1]; simpl in *.
  - specialize (Hk a env g1). unfold globals_of in Hk.
    destruct (k a env g1) as [[r g2] t2]; simpl in *. congruence.
  - exact Hc.
Qed.

Lemma keeps_guard_try_catch (c : M A) (h : JsError -> M A) :
  keeps_guard c -> (forall e, keeps_guard (h e)) -> keeps_guard (try_catch c h).
Proof.
  intros Hc Hh env g. specialize (Hc env g). unfold try_catch, globals_of in *.
  destruct (c env g) as [[[a | e] g1] t1]; simpl in *.
  - exact Hc.
  - specialize (Hh e env g1). unfold globals_of in Hh.
    destruct (h e env g1) as [[r g2] t2]; simpl in *. congruence.
Qed.

End Only.

Lemma only_get P : only P get.
Proof. intros env g. constructor. Qed.

Lemma only_ask P : only P ask.
Proof. intros env g. constructor. Qed.

Lemma only_put P g' : only P (put g').
Proof. intros env g. constructor. Qed.

Lemma keeps_guard_get : keeps_guard get.
Proof. intros env g. reflexivity. Qed.

Lemma keeps_guard_ask : keeps_guard ask.
Proof. intros env g. reflexivity. Qed.

Lemma keeps_guard_emit e : keeps_guard (emit e).
Proof. intros env g. reflexivity. Qed.

Lemma keeps_guard_set_waiting b : keeps_guard (set_waiting b).
Proof. intros env g. reflexivity. Qed.

Lemma keeps_guard_set_ghDeployment d : keeps_guard (set_ghDeployment d).
Proof. intros env g. reflexivity. Qed.

Lemma only_set_waiting P b : only P (set_waiting b).
Proof. intros env g. constructor. Qed.

Lemma only_set_ghDeployment P d : only P (set_ghDeployment d).
Proof. intros env g. constructor. Qed.

Lemma only_set_markedAsInProgress P b : only P (set_markedAsInProgress b).
Proof. intros env g. constructor. Qed.

Create HintDb js discriminated.
#[export] Hint Resolve only_ret only_throw only_get only_ask only_put
  only_set_waiting only_set_ghDeployment only_set_markedAsInProgress
  keeps_guard_ret keeps_guard_throw keeps_guard_get keeps_guard_ask
  keeps_guard_emit keeps_guard_set_waiting keeps_guard_set_ghDeployment : js.

(** Walks through a computation, one statement at a time, splitting on
    every test it meets. *)
Ltac step_js :=
  match goal with
  | |- only _ (bind _ _) => apply only_bind; [| intro]
  | |- only _ (try_catch _ _) => apply only_try_catch; [| intro]
  | |- only _ (emit _) => apply only_emit
  | |- keeps_guard (bind _ _) => apply keeps_guard_bind; [| intro]
  | |- keeps_guard (try_catch _ _) => apply keeps_guard_try_catch; [| intro]
  | |- only _ (if ?b then _ else _) => destruct b
  | |- keeps_guard (if ?b then _ else _) => destruct b
  | |- only _ (match ?x with _ => _ end) => destruct x
  | |- keeps_guard (match ?x with _ => _ end) => destruct x
  end.

(** Membership in a trace assembled from pieces. *)
Ltac in_trace :=
  cbn [app]; rewrite ?in_app_iff; cbn [In]; rewrite ?in_app_iff; tauto.

Ltac walk_js := repeat step_js; auto with js; try (simpl; eauto; fail).

(** ** The source-control API behaving *)

(** Neither GitHub call throws. *)
Definition github_ok (env : Env) : Prop :=
  (exists data, createDeployment_result env = inl data)
  /\ forall state, createDeploymentStatus_throws env state = None.

Lemma updateDeployment_returns ctx token d state env g :
  token = "" \/ github_ok env ->
  exists g' t,
    updateDeployment ctx token d state env g = (Ok tt, g', t)
    /\ waiting g' = waiting g
    /\ markedAsInProgress g' = markedAsInProgress g
    /\ In (call_updateDeployment token d state) t
    /\ (token <> "" -> is_deploy_terminal (latest_stage d) = true ->
        exists gh_id, In (createDeploymentStatus (status_args ctx d gh_id state)) t).
Proof.
  intros Hok. destruct (String.eqb_spec token "") as [-> | Ht].
  - exists g, [call_updateDeployment "" d state].
    rewrite updateDeployment_no_token. simpl. intuition congruence.
  - destruct Hok as [Hempty | [[data Hcreate] Hstatus]]; [contradiction |].
    destruct (ghDeployment g) as [old |] eqn:Hg.
    + rewrite (updateDeployment_cached _ _ _ _ _ _ _ Ht Hg), Hstatus.
      destruct (is_deploy_terminal (latest_stage d)); eexists _, _;
        (split; [reflexivity |]); simpl; repeat split; auto.
      * intros _ _. exists old. auto.
      * intros _ Habs. discriminate.
    + rewrite (updateDeployment_fresh _ _ _ _ _ _ Ht Hg), Hcreate, Hstatus.
      destruct (is_deploy_terminal (latest_stage d)); eexists _, _;
        (split; [reflexivity |]); simpl; repeat split; auto.
      * intros _ _. exists data. auto.
      * intros _ Habs. discriminate.
Qed.

Lemma keeps_guard_updateDeployment ctx token d state :
  keeps_guard (updateDeployment ctx token d state).
Proof. unfold updateDeployment. walk_js. Qed.

Lemma keeps_guard_getCloudflareLogs auth accountId project deploymentId :
  keeps_guard (getCloudflareLogs auth accountId project deploymentId).
Proof. unfold getCloudflareLogs, getCloudflareLogs_try. walk_js. Qed.

Lemma keeps_guard_slack text sent : keeps_guard (slack_send_and_forget text sent).
Proof. unfold slack_send_and_forget. walk_js. Qed.

#[export] Hint Resolve keeps_guard_updateDeployment keeps_guard_getCloudflareLogs
  keeps_guard_slack : js.

Lemma keeps_guard_pollApi auth accountId project commitHash answer :
  keeps_guard (pollApi auth accountId project commitHash answer).
Proof. unfold pollApi. walk_js. Qed.

Lemma keeps_guard_on_failed ctx inp auth d : keeps_guard (on_failed ctx inp auth d).
Proof. unfold on_failed. walk_js. Qed.

Lemma keeps_guard_on_deploy_finished ctx inp d :
  keeps_guard (on_deploy_finished ctx inp d).
Proof. unfold on_deploy_finished. walk_js. Qed.

#[export] Hint Resolve keeps_guard_pollApi keeps_guard_on_failed
  keeps_guard_on_deploy_finished : js.

(** ** Stage tracking *)

Definition stage_text (d : Deployment) : string :=
  "# Now at stage: " ++ name (latest_stage d).

Definition with_guard_set (g : Globals) : Globals :=
  {| waiting := waiting g; ghDeployment := ghDeployment g;
     markedAsInProgress := true |}.

Lemma track_stage_same ctx token d lastStage env g :
  name (latest_stage d) = lastStage ->
  track_stage ctx token d lastStage env g = (Ok lastStage, g, []).
Proof.
  intro H. unfold track_stage. rewrite (proj2 (String.eqb_eq _ _) H). reflexivity.
Qed.

Lemma track_stage_later_change ctx token d lastStage env g :
  name (latest_stage d) <> lastStage ->
  markedAsInProgress g = true ->
  track_stage ctx token d lastStage env g =
  (Ok (name (latest_stage d)), g, [console_log (stage_text d)]).
Proof.
  intros H Hm. unfold track_stage. rewrite (proj2 (String.eqb_neq _ _) H).
  unfold_js. simpl. rewrite Hm. reflexivity.
Qed.

Lemma track_stage_first_change ctx token d lastStage env g :
  name (latest_stage d) <> lastStage ->
  markedAsInProgress g = false ->
  track_stage ctx token d lastStage env g =
  let u := updateDeployment ctx token d in_progress env g in
  match result_of u with
  | Ok _ =>
      (Ok (name (latest_stage d)), with_guard_set (globals_of u),
       console_log (stage_text d) :: trace_of u)
  | Throw e => (Throw e, globals_of u, console_log (stage_text d) :: trace_of u)
  end.
Proof.
  intros H Hm. unfold track_stage. rewrite (proj2 (String.eqb_neq _ _) H).
  unfold_js. simpl. rewrite Hm. simpl.
  destruct (updateDeployment ctx token d in_progress env g) as [[[[] | e] g1] t1];
    simpl; rewrite ?app_nil_r; reflexivity.
Qed.

Lemma track_stage_returns ctx token d lastStage env g :
  token = "" \/ github_ok env ->
  exists ls g' t,
    track_stage ctx token d lastStage env g = (Ok ls, g', t)
    /\ waiting g' = waiting g.
Proof.
  intro Hok.
  destruct (String.eqb_spec (name (latest_stage d)) lastStage) as [Heq | Hne].
  - rewrite (track_stage_same _ _ _ _ _ _ Heq). eauto.
  - destruct (markedAsInProgress g) eqn:Hm.
    + rewrite (track_stage_later_change _ _ _ _ _ _ Hne Hm). eauto.
    + rewrite (track_stage_first_change _ _ _ _ _ _ Hne Hm).
      destruct (updateDeployment_returns ctx token d in_progress env g Hok)
        as (g1 & t1 & E & Hw & _).
      rewrite E. simpl. eauto.
Qed.

(** ** A pass that found a deployment *)

Lemma loop_found ctx inp auth lastStage answer rest env g d :
  waiting g = true ->
  result_of (pollApi auth (accountId inp) (project inp) (commitHash inp) answer env g)
    = Ok (Some d) ->
  loop ctx inp auth lastStage (answer :: rest) env g =
  let h := handle_deployment ctx inp auth d lastStage env g in
  let polled := [setTimeout 5000;
                 fetch (deployments_url (accountId inp) (project inp)) auth] in
  match result_of h with
  | Ok Return => (Ok Finished, globals_of h, (polled ++ trace_of h)%list)
  | Ok (Continue lastStage') =>
      let l := loop ctx inp auth lastStage' rest env (globals_of h) in
      (result_of l, globals_of l, (polled ++ trace_of h ++ trace_of l)%list)
  | Throw e => (Throw e, globals_of h, (polled ++ trace_of h)%list)
  end.
Proof.
  intros Hw Hpoll. rewrite (loop_step _ _ _ _ _ _ _ _ Hw).
  unfold bind at 1. rewrite (iteration_found _ _ _ _ _ _ _ _ Hpoll).
  destruct (handle_deployment ctx inp auth d lastStage env g) as [[[[| ls] | e] g1] t1];
    unfold result_of, globals_of, trace_of; cbn [fst snd].
  - unfold ret. cbn [app]. rewrite app_nil_r. reflexivity.
  - destruct (loop ctx inp auth ls rest env g1) as [[r g2] t2]. cbn [fst snd].
    reflexivity.
  - reflexivity.
Qed.

(** ** The failure branch *)

(** Lines 71-83 on their own. *)
Definition notify_failure (ctx : Context) (inp : Inputs) (auth : AuthHeaders)
    (d : Deployment) : M unit :=
  if truthy (slackWebHook inp) then
    logs <- getCloudflareLogs auth (accountId inp) (project inp) (id d) ;;
    slack_send_and_forget
      (failure_text (project inp) (or_empty (head_commit_url ctx))
         (or_empty (context_actor ctx)) d logs)
      ("Slack message for " ++ name (latest_stage d) ++ " failed pipeline sent!")
  else ret tt.

Definition failed_text (d : Deployment) : string :=
  "Deployment failed on step: " ++ name (latest_stage d) ++ "!".

Lemma on_failed_unfold ctx inp auth d :
  on_failed ctx inp auth d =
  (set_waiting false ;;
   notify_failure ctx inp auth d ;;
   emit (core_setFailed (FailString (failed_text d))) ;;
   updateDeployment ctx (githubToken inp) d st_failure).
Proof. reflexivity. Qed.

Lemma slack_send_and_forget_run text sent env g :
  slack_send_and_forget text sent env g =
  (Ok tt, g,
   [slack_send text;
    later (match slack_rejects env with
           | None => console_log sent
           | Some err => console_error (message err)
           end)]).
Proof. reflexivity. Qed.

Lemma notify_failure_returns ctx inp auth d env g :
  exists t,
    notify_failure ctx inp auth d env g = (Ok tt, g, t)
    /\ (slackWebHook inp <> "" ->
        exists logs,
          In (slack_send (failure_text (project inp) (or_empty (head_commit_url ctx))
                            (or_empty (context_actor ctx)) d logs)) t)
    /\ (slackWebHook inp = "" -> t = []).
Proof.
  unfold notify_failure.
  destruct (String.eqb_spec (slackWebHook inp) "") as [He | Hne].
  - rewrite (proj2 (truthy_false _) He). exists []. repeat split; auto.
    intro Habs. contradiction.
  - rewrite (proj2 (truthy_true _) Hne).
    destruct (getCloudflareLogs_total auth (accountId inp) (project inp) (id d) env g)
      as (logs & t0 & E & _).
    rewrite (bind_ok _ _ _ _ _ _ _ E), slack_send_and_forget_run.
    unfold result_of, globals_of, trace_of. cbn [fst snd].
    eexists. split; [reflexivity |]. split.
    + intros _. exists logs. apply in_or_app. right. left. reflexivity.
    + intro Habs. contradiction.
Qed.

Lemma on_failed_returns ctx inp auth d env g :
  githubToken inp = "" \/ github_ok env ->
  exists g' t,
    on_failed ctx inp auth d env g = (Ok tt, g', t)
    /\ waiting g' = false
    /\ In (core_setFailed (FailString (failed_text d))) t
    /\ In (call_updateDeployment (githubToken inp) d st_failure) t
    /\ (slackWebHook inp <> "" ->
        exists logs,
          In (slack_send (failure_text (project inp) (or_empty (head_commit_url ctx))
                            (or_empty (context_actor ctx)) d logs)) t)
    /\ (githubToken inp <> "" -> is_deploy_terminal (latest_stage d) = true ->
        exists gh_id,
          In (createDeploymentStatus (status_args ctx d gh_id st_failure)) t).
Proof.
  intro Hok. rewrite on_failed_unfold.
  destruct (notify_failure_returns ctx inp auth d env (with_waiting g false))
    as (t1 & E1 & Hslack & _).
  destruct (updateDeployment_returns ctx (githubToken inp) d st_failure env
              (with_waiting g false) Hok)
    as (g2 & t2 & E2 & Hw & _ & Hcall & Hpush).
  assert (E0 : set_waiting false env g = (Ok tt, with_waiting g false, []))
    by reflexivity.
  rewrite (bind_ok _ _ _ _ _ _ _ E0), (bind_ok _ _ _ _ _ _ _ E1), bind_emit, E2.
  unfold result_of, globals_of, trace_of. cbn [fst snd app].
  eexists _, _. split; [reflexivity |].
  split; [exact Hw |].
  split; [apply in_or_app; right; left; reflexivity |].
  split; [apply in_or_app; right; right; exact Hcall |].
  split.
  - intro Hne. destruct (Hslack Hne) as [logs Hin]. exists logs.
    apply in_or_app. left. exact Hin.
  - intros Hne Hterm. destruct (Hpush Hne Hterm) as [gh_id Hin]. exists gh_id.
    apply in_or_app. right. right. exact Hin.
Qed.

(** What the failure path may do: it publishes no output, the only Slack
    text it sends is the failure text, and it never asks for a "success"
    status. *)
Definition failure_path_event (ctx : Context) (inp : Inputs) (d : Deployment)
    (e : event) : Prop :=
  match e with
  | core_setOutput _ _ => False
  | slack_send text =>
      exists logs,
        text = failure_text (project inp) (or_empty (head_commit_url ctx))
                 (or_empty (context_actor ctx)) d logs
  | call_updateDeployment _ _ st_success => False
  | createDeploymentStatus a => cs_state a <> st_success
  | _ => True
  end.

Lemma only_failure_updateDeployment ctx inp d token state :
  state <> st_success ->
  only (failure_path_event ctx inp d) (updateDeployment ctx token d state).
Proof.
  intro Hs. unfold updateDeployment. walk_js; simpl; auto.
  destruct state; auto.
Qed.

Lemma only_failure_track_stage ctx inp d lastStage :
  only (failure_path_event ctx inp d) (track_stage ctx (githubToken inp) d lastStage).
Proof.
  unfold track_stage. walk_js.
  apply only_failure_updateDeployment. discriminate.
Qed.

Lemma only_failure_on_failed ctx inp auth d :
  only (failure_path_event ctx inp d) (on_failed ctx inp auth d).
Proof.
  unfold on_failed, getCloudflareLogs, getCloudflareLogs_try, slack_send_and_forget.
  walk_js.
  all: try (apply only_failure_updateDeployment; discriminate).
Qed.

Lemma handle_deployment_failed ctx inp auth d lastStage :
  is_skipped d = false ->
  status (latest_stage d) = "failed" \/ status (latest_stage d) = "failure" ->
  handle_deployment ctx inp auth d lastStage =
  (lastStage' <- track_stage ctx (githubToken inp) d lastStage ;;
   on_failed ctx inp auth d ;;
   ret Return).
Proof.
  intros Hskip Hst. unfold handle_deployment. rewrite Hskip.
  destruct Hst as [-> | ->]; reflexivity.
Qed.

(** A pass that polls a deployment whose latest stage is "deploy" with
    status "failed" or "failure" takes the failure branch and ends the run
    there; the later answers are never looked at.  On every such pass no
    output is published, no Slack text other than the failure text is sent
    and no "success" state is passed on.  Provided the source-control calls
    do not throw (or no token is configured), the run returns with
    [waiting] cleared, having reported "Deployment failed on step: deploy!",
    called [updateDeployment] with state "failure" and, when a webhook is
    configured, sent the failure notification; with a token and status
    "failed" the "failure" status record reaches GitHub. *)
Lemma failed_deploy_failure_branch :
  forall ctx inp auth lastStage answer rest env g d,
    waiting g = true ->
    result_of (pollApi auth (accountId inp) (project inp) (commitHash inp) answer env g)
      = Ok (Some d) ->
    is_skipped d = false ->
    name (latest_stage d) = "deploy" ->
    status (latest_stage d) = "failed" \/ status (latest_stage d) = "failure" ->
    let r := loop ctx inp auth lastStage (answer :: rest) env g in
    Forall (failure_path_event ctx inp d) (trace_of r)
    /\ result_of r <> Ok StillPolling
    /\ r = loop ctx inp auth lastStage [answer] env g
    /\ (githubToken inp = "" \/ github_ok env ->
        result_of r = Ok Finished
        /\ waiting (globals_of r) = false
        /\ In (core_setFailed (FailString "Deployment failed on step: deploy!"))
             (trace_of r)
        /\ In (call_updateDeployment (githubToken inp) d st_failure) (trace_of r)
        /\ (slackWebHook inp <> "" ->
            exists logs,
              In (slack_send
                    (failure_text (project inp) (or_empty (head_commit_url ctx))
                       (or_empty (context_actor ctx)) d logs)) (trace_of r))
        /\ (githubToken inp <> "" -> status (latest_stage d) = "failed" ->
            exists gh_id,
              In (createDeploymentStatus (status_args ctx d gh_id st_failure))
                 (trace_of r))).
Proof.
  intros ctx inp auth lastStage answer rest env g d Hw Hpoll Hskip Hname Hst r.
  assert (Honly : Forall (failure_path_event ctx inp d)
                    (trace_of (handle_deployment ctx inp auth d lastStage env g))).
  { rewrite (handle_deployment_failed _ _ _ _ _ Hskip Hst).
    apply only_bind; [apply only_failure_track_stage | intro].
    apply only_bind; [apply only_failure_on_failed | intro]. apply only_ret. }
  assert (Hshape : forall more,
            loop ctx inp auth lastStage (answer :: more) env g =
            let h := handle_deployment ctx inp auth d lastStage env g in
            (match result_of h with Ok _ => Ok Finished | Throw e => Throw e end,
             globals_of h,
             ([setTimeout 5000;
               fetch (deployments_url (accountId inp) (project inp)) auth]
              ++ trace_of h)%list)).
  { intro more. rewrite (loop_found _ _ _ _ _ _ _ _ _ Hw Hpoll).
    rewrite (handle_deployment_failed _ _ _ _ _ Hskip Hst).
    unfold bind, ret, result_of, globals_of, trace_of.
    destruct (track_stage ctx (githubToken inp) d lastStage env g)
      as [[[ls | e] g1] t1]; cbn [fst snd]; [| reflexivity].
    destruct (on_failed ctx inp auth d env g1) as [[[[] | e] g2] t2];
      reflexivity. }
  subst r. rewrite (Hshape rest).
  cbv zeta. unfold result_of at 1 2 4, trace_of at 1, globals_of at 2.
  cbn [fst snd].
  split; [| split; [| split]].
  - unfold trace_of at 1. cbn [snd]. repeat constructor. exact Honly.
  - destruct (result_of (handle_deployment ctx inp auth d lastStage env g));
      discriminate.
  - rewrite (Hshape []). reflexivity.
  - intro Hok.
    rewrite (handle_deployment_failed _ _ _ _ _ Hskip Hst).
    destruct (track_stage_returns ctx (githubToken inp) d lastStage env g Hok)
      as (ls & g1 & t1 & E1 & _).
    destruct (on_failed_returns ctx inp auth d env g1 Hok)
      as (g2 & t2 & E2 & Hw2 & Hfail & Hcall & Hslack & Hpush).
    rewrite (bind_ok _ _ _ _ _ _ _ E1), (bind_ok _ _ _ _ _ _ _ E2).
    unfold ret, result_of, globals_of, trace_of. cbn [fst snd].
    unfold failed_text in Hfail. rewrite Hname in Hfail. simpl in Hfail.
    split; [reflexivity |]. split; [exact Hw2 |].
    split; [| split; [| split]].
    + in_trace.
    + in_trace.
    + intro Hne. destruct (Hslack Hne) as [logs Hin]. exists logs. in_trace.
    + intros Hne Hfailed.
      assert (Hterm : is_deploy_terminal (latest_stage d) = true)
        by (apply is_deploy_terminal_spec; auto).
      destruct (Hpush Hne Hterm) as [gh_id Hin]. exists gh_id. in_trace.
Qed.

(** ** The deploy-finished branch *)

Definition is_output (e : event) : bool :=
  match e with core_setOutput _ _ => true | _ => false end.

Definition is_slack (e : event) : bool :=
  match e with slack_send _ => true | _ => false end.

(** Calls that are neither outputs, nor polls, nor Slack messages. *)
Definition bookkeeping (e : event) : Prop :=
  is_output e = false /\ is_poll e = false /\ is_slack e = false.

Lemma filter_none {A} (f : A -> bool) (l : list A) :
  Forall (fun x => f x = false) l -> filter f l = [].
Proof.
  induction 1 as [| x l Hx _ IH]; simpl; [reflexivity |]. rewrite Hx. exact IH.
Qed.

Lemma only_bookkeeping_updateDeployment ctx token d state :
  only bookkeeping (updateDeployment ctx token d state).
Proof. unfold updateDeployment. walk_js; repeat split. Qed.

Lemma only_bookkeeping_track_stage ctx token d lastStage :
  only bookkeeping (track_stage ctx token d lastStage).
Proof.
  unfold track_stage. walk_js; try (repeat split; fail).
  apply only_bookkeeping_updateDeployment.
Qed.

Definition published_outputs (d : Deployment) : list event :=
  [core_setOutput "id" (OutString (id d));
   core_setOutput "environment" (OutString (environment d));
   core_setOutput "url" (OutString (url d));
   core_setOutput "alias" (OutString (alias_url d));
   core_setOutput "success" (OutBool true)].

Definition success_notification (ctx : Context) (inp : Inputs) (d : Deployment) : event :=
  slack_send (success_text (project inp) (or_empty (head_commit_url ctx))
                (or_empty (context_actor ctx)) (accountId inp) d (alias_url d)).

Lemma handle_deployment_deployed ctx inp auth d lastStage :
  is_skipped d = false ->
  name (latest_stage d) = "deploy" ->
  status (latest_stage d) = "success" ->
  handle_deployment ctx inp auth d lastStage =
  (lastStage' <- track_stage ctx (githubToken inp) d lastStage ;;
   on_deploy_finished ctx inp d ;;
   ret (Continue lastStage')).
Proof.
  intros Hskip Hname Hst. unfold handle_deployment.
  rewrite Hskip, Hname, Hst. reflexivity.
Qed.

(** The branch up to its last statement, for a successful deploy. *)
Lemma on_deploy_finished_success ctx inp d env g :
  status (latest_stage d) = "success" ->
  on_deploy_finished ctx inp d env g =
  let u := (if negb (githubToken inp =? "")
            then updateDeployment ctx (githubToken inp) d st_success
            else ret tt) env (with_waiting g false) in
  (result_of u, globals_of u,
   (published_outputs d ++
    [success_notification ctx inp d;
     later (match slack_rejects env with
            | None => console_log "Slack message for DEPLOYMENT succeeded pipeline sent!"
            | Some err => console_error (message err)
            end)] ++ trace_of u)%list).
Proof.
  intro Hst. unfold on_deploy_finished. rewrite Hst, !String.eqb_refl. cbn [andb].
  assert (E0 : set_waiting false env g = (Ok tt, with_waiting g false, []))
    by reflexivity.
  rewrite (bind_ok _ _ _ _ _ _ _ E0). rewrite !bind_emit.
  rewrite (bind_ok _ _ _ _ _ _ _ (slack_send_and_forget_run _ _ _ _)).
  unfold result_of, globals_of, trace_of. cbn [fst snd app]. reflexivity.
Qed.

Lemma alias_url_first d a more : aliases d = Some (a :: more) -> alias_url d = a.
Proof. intro H. unfold alias_url. rewrite H. reflexivity. Qed.

Lemma alias_url_fallback d :
  aliases d = Some [] \/ aliases d = None -> alias_url d = url d.
Proof. intros [H | H]; unfold alias_url; rewrite H; reflexivity. Qed.

Lemma bookkeeping_no_output t : Forall bookkeeping t -> filter is_output t = [].
Proof.
  intro H. apply filter_none. eapply Forall_impl; [| exact H].
  intros e He. apply He.
Qed.

Lemma bookkeeping_no_poll t : Forall bookkeeping t -> filter is_poll t = [].
Proof.
  intro H. apply filter_none. eapply Forall_impl; [| exact H].
  intros e He. apply He.
Qed.


Lemma on_deploy_finished_returns ctx inp d env g :
  status (latest_stage d) = "success" ->
  githubToken inp = "" \/ github_ok env ->
  exists g' later_event t,
    on_deploy_finished ctx inp d env g =
      (Ok tt, g',
       (published_outputs d
        ++ [success_notification ctx inp d; later later_event] ++ t)%list)
    /\ waiting g' = false
    /\ Forall bookkeeping t.
Proof.
  intros Hst Hok. rewrite (on_deploy_finished_success _ _ _ _ _ Hst). cbv zeta.
  destruct (String.eqb_spec (githubToken inp) "") as [He | Hne]; cbn [negb].
  - unfold ret, result_of, globals_of, trace_of. cbn [fst snd].
    eexists _, _, []. split; [reflexivity |]. split; [reflexivity | constructor].
  - destruct (updateDeployment_returns ctx (githubToken inp) d st_success env
                (with_waiting g false) Hok) as (g2 & t2 & E & Hw & _).
    pose proof (only_bookkeeping_updateDeployment ctx (githubToken inp) d st_success
                  env (with_waiting g false)) as Hb.
    rewrite E in *. unfold result_of, globals_of, trace_of in *. cbn [fst snd] in *.
    eexists _, _, t2. split; [reflexivity |]. split; [exact Hw | exact Hb].
Qed.

(** C7. A pass that polls a non-skipped deployment whose latest stage is
    "deploy" with status "success" ends the run, provided the source-control
    calls do not throw (or no token is configured): the run returns with
    [waiting] cleared after this single poll, whatever answers would follow,
    and publishes exactly the outputs id, environment, url (the deployment's
    URL), alias and success = true, in that order.  The alias is the first
    entry of [aliases] when there is one and the deployment's URL when the
    list is empty or missing. *)
Theorem successful_deploy_publishes_outputs :
  forall ctx inp auth lastStage answer rest env g d,
    waiting g = true ->
    result_of (pollApi auth (accountId inp) (project inp) (commitHash inp) answer env g)
      = Ok (Some d) ->
    is_skipped d = false ->
    name (latest_stage d) = "deploy" ->
    status (latest_stage d) = "success" ->
    githubToken inp = "" \/ github_ok env ->
    let r := loop ctx inp auth lastStage (answer :: rest) env g in
    result_of r = Ok Finished
    /\ waiting (globals_of r) = false
    /\ filter is_poll (trace_of r)
       = [setTimeout 5000; fetch (deployments_url (accountId inp) (project inp)) auth]
    /\ filter is_output (trace_of r)
       = [core_setOutput "id" (OutString (id d));
          core_setOutput "environment" (OutString (environment d));
          core_setOutput "url" (OutString (url d));
          core_setOutput "alias" (OutString (alias_url d));
          core_setOutput "success" (OutBool true)]
    /\ (forall a more, aliases d = Some (a :: more) -> alias_url d = a)
    /\ (aliases d = Some [] \/ aliases d = None -> alias_url d = url d).
Proof.
  intros ctx inp auth lastStage answer rest env g d Hw Hpoll Hskip Hname Hst Hok r.
  subst r. rewrite (loop_found _ _ _ _ _ _ _ _ _ Hw Hpoll).
  rewrite (handle_deployment_deployed _ _ _ _ _ Hskip Hname Hst).
  destruct (track_stage_returns ctx (githubToken inp) d lastStage env g Hok)
    as (ls & g1 & t1 & E1 & _).
  pose proof (only_bookkeeping_track_stage ctx (githubToken inp) d lastStage env g)
    as Hb1.
  rewrite E1 in Hb1. unfold trace_of in Hb1. cbn [snd] in Hb1.
  destruct (on_deploy_finished_returns ctx inp d env g1 Hst Hok)
    as (g2 & le & t2 & E2 & Hw2 & Hb2).
  cbv zeta.
  rewrite (bind_ok _ _ _ _ _ _ _ E1), (bind_ok _ _ _ _ _ _ _ E2).
  unfold ret, result_of, globals_of, trace_of. cbn [fst snd].
  rewrite (loop_stopped _ _ _ _ _ _ _ Hw2). cbn [fst snd].
  split; [reflexivity |]. split; [exact Hw2 |].
  split; [| split; [| split]].
  - rewrite !filter_app. cbn [filter is_poll app published_outputs].
    rewrite (bookkeeping_no_poll _ Hb1), (bookkeeping_no_poll _ Hb2). reflexivity.
  - rewrite !filter_app. cbn [filter is_poll is_output app published_outputs].
    rewrite (bookkeeping_no_output _ Hb1), (bookkeeping_no_output _ Hb2). reflexivity.
  - apply alias_url_first.
  - apply alias_url_fallback.
Qed.

(** ** The one-shot in-progress reflection *)

(** The two things the stage tracker does that matter here: announcing a
    stage change, and calling [updateDeployment] with state "in_progress". *)
Inductive mark := stage_change | in_progress_reflection.

Definition mark_of (e : event) : option mark :=
  match e with
  | console_log s =>
      if prefix "# Now at stage: " s then Some stage_change else None
  | call_updateDeployment _ _ in_progress => Some in_progress_reflection
  | _ => None
  end.

Fixpoint marks (t : list event) : list mark :=
  match t with
  | [] => []
  | e :: t' =>
      match mark_of e with
      | Some m => m :: marks t'
      | None => marks t'
      end
  end.

Definition unmarked (e : event) : Prop := mark_of e = None.

Lemma marks_app t1 t2 : marks (t1 ++ t2) = (marks t1 ++ marks t2)%list.
Proof.
  induction t1 as [| e t1 IH]; simpl; [reflexivity |].
  destruct (mark_of e); simpl; rewrite IH; reflexivity.
Qed.

Lemma marks_unmarked t : Forall unmarked t -> marks t = [].
Proof.
  induction 1 as [| e t He _ IH]; simpl; [reflexivity |].
  rewrite He. exact IH.
Qed.

Lemma mark_of_stage_text d : mark_of (console_log (stage_text d)) = Some stage_change.
Proof.
  unfold stage_text. destruct (name (latest_stage d)); reflexivity.
Qed.

Lemma only_unmarked_updateDeployment ctx token d state :
  state <> in_progress -> only unmarked (updateDeployment ctx token d state).
Proof.
  intro Hs. unfold updateDeployment. walk_js; try reflexivity.
  unfold unmarked. destruct state; [contradiction | reflexivity | reflexivity].
Qed.

Lemma only_unmarked_pollApi auth accountId project commitHash answer :
  only unmarked (pollApi auth accountId project commitHash answer).
Proof. unfold pollApi. walk_js; reflexivity. Qed.

Lemma only_unmarked_on_failed ctx inp auth d : only unmarked (on_failed ctx inp auth d).
Proof.
  unfold on_failed, getCloudflareLogs, getCloudflareLogs_try, slack_send_and_forget.
  walk_js; try reflexivity.
  all: apply only_unmarked_updateDeployment; intro H; discriminate H.
Qed.

Lemma only_unmarked_on_deploy_finished ctx inp d :
  only unmarked (on_deploy_finished ctx inp d).
Proof.
  unfold on_deploy_finished, slack_send_and_forget.
  walk_js; try reflexivity.
  all: apply only_unmarked_updateDeployment; destruct (_ =? _); intro H; discriminate H.
Qed.

(** What one look at a deployment contributes: nothing when the stage name
    is the recorded one; the announcement alone once the guard is set; the
    announcement followed by the reflection when the guard is still clear. *)
Lemma track_stage_marks ctx token d lastStage env g :
  marks (trace_of (track_stage ctx token d lastStage env g)) =
  if name (latest_stage d) =? lastStage then []
  else if markedAsInProgress g then [stage_change]
       else [stage_change; in_progress_reflection].
Proof.
  destruct (String.eqb_spec (name (latest_stage d)) lastStage) as [Heq | Hne].
  - rewrite (track_stage_same _ _ _ _ _ _ Heq). reflexivity.
  - destruct (markedAsInProgress g) eqn:Hm.
    + rewrite (track_stage_later_change _ _ _ _ _ _ Hne Hm).
      unfold trace_of. cbn [snd marks]. rewrite mark_of_stage_text. reflexivity.
    + rewrite (track_stage_first_change _ _ _ _ _ _ Hne Hm). cbv zeta.
      assert (Hu : marks (trace_of (updateDeployment ctx token d in_progress env g))
                   = [in_progress_reflection]).
      { destruct (String.eqb_spec token "") as [-> | Ht].
        - reflexivity.
        - destruct (ghDeployment g) as [old |] eqn:Hg.
          + rewrite (updateDeployment_cached _ _ _ _ _ _ _ Ht Hg).
            destruct (is_deploy_terminal (latest_stage d)); reflexivity.
          + rewrite (updateDeployment_fresh _ _ _ _ _ _ Ht Hg).
            destruct (createDeployment_result env);
              [destruct (is_deploy_terminal (latest_stage d)) |]; reflexivity. }
      destruct (result_of (updateDeployment ctx token d in_progress env g));
        unfold trace_of at 1; cbn [snd marks]; rewrite mark_of_stage_text, Hu;
        reflexivity.
Qed.

(** After the stage tracker the guard is set unless nothing changed or the
    reflection threw. *)
Lemma track_stage_guard ctx token d lastStage env g :
  let r := track_stage ctx token d lastStage env g in
  (markedAsInProgress g = true -> markedAsInProgress (globals_of r) = true)
  /\ (markedAsInProgress g = false ->
      name (latest_stage d) = lastStage -> markedAsInProgress (globals_of r) = false)
  /\ (name (latest_stage d) <> lastStage ->
      markedAsInProgress (globals_of r) = true \/ exists e, result_of r = Throw e).
Proof.
  cbv zeta.
  destruct (String.eqb_spec (name (latest_stage d)) lastStage) as [Heq | Hne].
  - rewrite (track_stage_same _ _ _ _ _ _ Heq).
    unfold globals_of, result_of. cbn [fst snd]. tauto.
  - destruct (markedAsInProgress g) eqn:Hm.
    + rewrite (track_stage_later_change _ _ _ _ _ _ Hne Hm).
      unfold globals_of, result_of. cbn [fst snd]. rewrite Hm.
      split; [reflexivity | split; [discriminate | auto]].
    + rewrite (track_stage_first_change _ _ _ _ _ _ Hne Hm). cbv zeta.
      destruct (result_of (updateDeployment ctx token d in_progress env g)) as [[] | e];
        unfold globals_of at 1 2 3, result_of; cbn [fst snd with_guard_set markedAsInProgress];
        (split; [discriminate | split; [intros _ Habs; contradiction |]]).
      * intros _. left. reflexivity.
      * intros _. right. eauto.
Qed.

(** The shape of a trace with respect to the guard it starts from: with the
    guard set, only announcements can follow and the guard stays set; with
    the guard clear, either nothing is announced and the guard stays clear,
    or the first announcement is followed by the reflection, all later
    announcements come bare, and the guard is set unless the computation
    threw. *)
Definition once_from {A} (g : Globals) (r : Result A * Globals * list event) : Prop :=
  (markedAsInProgress g = true ->
     markedAsInProgress (globals_of r) = true
     /\ exists n, marks (trace_of r) = repeat stage_change n)
  /\ (markedAsInProgress g = false ->
      (marks (trace_of r) = [] /\ markedAsInProgress (globals_of r) = false)
      \/ (exists n,
            marks (trace_of r)
            = stage_change :: in_progress_reflection :: repeat stage_change n)
         /\ (markedAsInProgress (globals_of r) = true
             \/ exists e, result_of r = Throw e)).

Definition reflects_once {A} (c : M A) : Prop :=
  forall env g, once_from g (c env g).

Lemma reflects_once_quiet {A} (c : M A) :
  only unmarked c -> keeps_guard c -> reflects_once c.
Proof.
  intros Ho Hk env g. specialize (Ho env g). specialize (Hk env g).
  apply marks_unmarked in Ho. split; intro Hm.
  - split; [congruence |]. exists 0%nat. exact Ho.
  - left. split; [exact Ho | congruence].
Qed.

Lemma reflects_once_bind {A B} (c : M A) (k : A -> M B) :
  reflects_once c -> (forall a, reflects_once (k a)) -> reflects_once (bind c k).
Proof.
  intros Hc Hk env g. specialize (Hc env g).
  unfold once_from, bind, result_of, globals_of, trace_of in *.
  destruct (c env g) as [[[a | e] g1] t1]; cbn [fst snd] in *.
  2:{ destruct Hc as [Hset Hclear]. split; [exact Hset |].
      intro Hm. destruct (Hclear Hm) as [Hquiet | [Hn _]];
        [left; exact Hquiet | right; split; [exact Hn | right; eauto]]. }
  specialize (Hk a env g1).
  unfold once_from, result_of, globals_of, trace_of in Hk.
  destruct (k a env g1) as [[r g2] t2]; cbn [fst snd] in *.
  rewrite marks_app.
  destruct Hc as [Hset Hclear], Hk as [Hset' Hclear'].
  assert (Hafter : markedAsInProgress g1 = true ->
                   forall n, marks t1 = repeat stage_change n ->
                   markedAsInProgress g2 = true
                   /\ exists m, (marks t1 ++ marks t2)%list = repeat stage_change m).
  { intros Hg1 n Hn. destruct (Hset' Hg1) as [Hg2 [n' Hn']].
    split; [exact Hg2 |]. exists (n + n')%nat.
    rewrite Hn, Hn', repeat_app. reflexivity. }
  split; intro Hm.
  - destruct (Hset Hm) as [Hg1 [n Hn]]. exact (Hafter Hg1 n Hn).
  - destruct (Hclear Hm) as [[Hn Hg1] | [[n Hn] [Hg1 | [e He]]]].
    + rewrite Hn. cbn [app]. exact (Hclear' Hg1).
    + destruct (Hset' Hg1) as [Hg2 [n' Hn']]. right. split; [| left; exact Hg2].
      exists (n + n')%nat. rewrite Hn, Hn', repeat_app. reflexivity.
    + discriminate He.
Qed.

Lemma reflects_once_track_stage ctx token d lastStage :
  reflects_once (track_stage ctx token d lastStage).
Proof.
  intros env g.
  pose proof (track_stage_marks ctx token d lastStage env g) as Hmarks.
  destruct (track_stage_guard ctx token d lastStage env g) as (Hset & Hsame & Hchange).
  split; intro Hm; rewrite Hmarks, Hm.
  - split; [exact (Hset Hm) |].
    destruct (name (latest_stage d) =? lastStage); [exists 0%nat | exists 1%nat];
      reflexivity.
  - destruct (String.eqb_spec (name (latest_stage d)) lastStage) as [Heq | Hne].
    + left. split; [reflexivity | exact (Hsame Hm Heq)].
    + right. split; [exists 0%nat; reflexivity | exact (Hchange Hne)].
Qed.

Lemma only_unmarked_emit e : mark_of e = None -> only unmarked (emit e).
Proof. intro H. apply only_emit. exact H. Qed.

Ltac quiet_js :=
  apply reflects_once_quiet;
  [ walk_js; try reflexivity | walk_js ].

Lemma reflects_once_handle_deployment ctx inp auth d lastStage :
  reflects_once (handle_deployment ctx inp auth d lastStage).
Proof.
  unfold handle_deployment. destruct (is_skipped d).
  - quiet_js.
  - apply reflects_once_bind; [apply reflects_once_track_stage | intro ls].
    apply reflects_once_quiet.
    + walk_js; try reflexivity.
      all: first [ apply only_unmarked_on_failed
                 | apply only_unmarked_on_deploy_finished ].
    + walk_js.
Qed.

Lemma reflects_once_iteration ctx inp auth answer lastStage :
  reflects_once (iteration ctx inp auth answer lastStage).
Proof.
  unfold iteration.
  apply reflects_once_bind; [quiet_js | intros _].
  apply reflects_once_bind.
  - apply reflects_once_quiet; [apply only_unmarked_pollApi | apply keeps_guard_pollApi].
  - intros [d |]; [apply reflects_once_handle_deployment | quiet_js].
Qed.

Lemma reflects_once_loop ctx inp auth answers :
  forall lastStage, reflects_once (loop ctx inp auth lastStage answers).
Proof.
  induction answers as [| answer rest IH]; intro lastStage; cbn [loop].
  - quiet_js.
  - apply reflects_once_bind; [quiet_js | intro g0].
    destruct (negb (waiting g0)); [quiet_js |].
    apply reflects_once_bind; [apply reflects_once_iteration | intros [| ls]].
    + quiet_js.
    + apply IH.
Qed.

Lemma reflects_once_run ctx inp answers : reflects_once (run ctx inp answers).
Proof.
  unfold run, getInput, validateAuthInputs.
  repeat (apply reflects_once_bind; [quiet_js | intro]).
  destruct (negb _); [quiet_js |].
  apply reflects_once_bind; [quiet_js | intros _].
  apply reflects_once_loop.
Qed.

Definition is_in_progress_call (e : event) : bool :=
  match e with
  | call_updateDeployment _ _ in_progress => true
  | _ => false
  end.

Definition is_reflection (m : mark) : bool :=
  match m with in_progress_reflection => true | stage_change => false end.

Lemma in_progress_calls_marks t :
  List.length (filter is_in_progress_call t)
  = List.length (filter is_reflection (marks t)).
Proof.
  induction t as [| e t IH]; [reflexivity |].
  destruct e as [s | | | | | | | | | | | token d []]; cbn [filter is_in_progress_call marks mark_of];
    try exact IH.
  - destruct (prefix "# Now at stage: " s); cbn [filter is_reflection]; exact IH.
  - cbn [filter is_reflection List.length]. rewrite IH. reflexivity.
Qed.

Lemma no_reflection_among_changes n :
  filter is_reflection (repeat stage_change n) = [].
Proof. induction n as [| n IH]; [reflexivity | exact IH]. Qed.

Example three_stages_one_reflection :
  marks (trace_of (run Samples.ctx Samples.inp
                     [Samples.answer (Samples.deployment "queued" "active");
                      Samples.answer (Samples.deployment "build" "active");
                      Samples.answer (Samples.deployment "deploy" "success")]
                     Samples.env initial))
  = [stage_change; in_progress_reflection; stage_change; stage_change].
Proof. vm_compute. reflexivity. Qed.

(** C4. In a run started from the values the module sets at load time,
    the announcements of stage changes and the calls
    [updateDeployment(..., "in_progress")] appear in one of two ways: not at
    all, or one announcement, the call right after it, and then any number
    of announcements with no call among them; so the call is made at most
    once.  The stage tracker announces exactly when the observed stage name
    differs from the recorded [lastStage], and adds the call exactly when
    the guard [markedAsInProgress] is still clear; once the guard is set a
    loop keeps it set and makes no such call. *)
Theorem in_progress_reflected_once_on_first_change :
  forall ctx inp answers env,
    let t := trace_of (run ctx inp answers env initial) in
    (marks t = []
     \/ exists n, marks t = stage_change :: in_progress_reflection :: repeat stage_change n)
    /\ (List.length (filter is_in_progress_call t) <= 1)%nat
    /\ (forall token d lastStage env' g,
          marks (trace_of (track_stage ctx token d lastStage env' g)) =
          if name (latest_stage d) =? lastStage then []
          else if markedAsInProgress g then [stage_change]
               else [stage_change; in_progress_reflection])
    /\ (forall auth lastStage answers' env' g,
          markedAsInProgress g = true ->
          let l := loop ctx inp auth lastStage answers' env' g in
          markedAsInProgress (globals_of l) = true
          /\ filter is_in_progress_call (trace_of l) = []).
Proof.
  intros ctx inp answers env t.
  assert (Hshape : marks t = []
                   \/ exists n, marks t
                        = stage_change :: in_progress_reflection :: repeat stage_change n).
  { destruct (reflects_once_run ctx inp answers env initial) as [_ Hclear].
    destruct (Hclear eq_refl) as [[Hnone _] | [Hsome _]]; [left | right]; assumption. }
  split; [exact Hshape |]. split; [| split].
  - rewrite in_progress_calls_marks.
    destruct Hshape as [-> | [n ->]]; cbn [filter is_reflection List.length].
    + lia.
    + rewrite no_reflection_among_changes. cbn [List.length]. lia.
  - intros. apply track_stage_marks.
  - intros auth lastStage answers' env' g Hm l.
    destruct (reflects_once_loop ctx inp auth answers' lastStage env' g) as [Hset _].
    destruct (Hset Hm) as [Hg [n Hn]]. split; [exact Hg |].
    apply length_zero_iff_nil. subst l. rewrite in_progress_calls_marks, Hn.
    rewrite no_reflection_among_changes. reflexivity.
Qed.

(** ** What the poller's failures do to the loop *)

(** An API error envelope stops the loop: [waiting] is cleared, the failure
    names the first reported error (or the placeholder), and the loop test
    ends the run after the waiting message. *)
Lemma loop_stops_on_api_error ctx inp auth lastStage ok http_status statusText body
    rest env g :
  waiting g = true ->
  success body = false ->
  loop ctx inp auth lastStage
    (Responded ok http_status statusText (JsonBody body) :: rest) env g =
  (Ok Finished, with_waiting g false,
   [setTimeout 5000;
    fetch (deployments_url (accountId inp) (project inp)) auth;
    core_setFailed (FailString (api_error_text body));
    console_log waiting_text]).
Proof.
  intros Hw Hs. rewrite (loop_step _ _ _ _ _ _ _ _ Hw).
  erewrite bind_ok.
  2:{ apply iteration_absent. rewrite pollApi_body, Hs. reflexivity. }
  cbv beta iota. rewrite loop_stopped by reflexivity. reflexivity.
Qed.

Lemma api_error_text_cases body :
  (forall e more, errors body = e :: more ->
     api_error_text body = "Failed to check deployment status! Error: " ++ e)
  /\ (errors body = [] ->
      api_error_text body
      = "Failed to check deployment status! Error: " ++ dquote ++ "Unknown error!" ++ dquote).
Proof.
  unfold api_error_text, first_error. split.
  - intros e more ->. reflexivity.
  - intros ->. reflexivity.
Qed.

(** A transport failure marks the run failed but leaves [waiting] as it is:
    the loop logs the waiting message and polls again. *)
Lemma loop_polls_again_after_transport_failure ctx inp auth lastStage e rest env g :
  waiting g = true ->
  loop ctx inp auth lastStage (FetchThrows e :: rest) env g =
  let l := loop ctx inp auth lastStage rest env g in
  (result_of l, globals_of l,
   ([setTimeout 5000;
     fetch (deployments_url (accountId inp) (project inp)) auth;
     core_error ("Failed to send request to CF API - network issue? " ++ message e);
     core_setFailed (FailError e);
     console_log waiting_text] ++ trace_of l)%list).
Proof.
  intro Hw. rewrite (loop_step _ _ _ _ _ _ _ _ Hw).
  erewrite bind_ok.
  2:{ apply iteration_absent. apply pollApi_transport_failure. }
  reflexivity.
Qed.

(** Likewise for a body that is not JSON. *)
Lemma loop_polls_again_after_unparseable_body ctx inp auth lastStage ok http_status
    statusText e rest env g :
  waiting g = true ->
  loop ctx inp auth lastStage
    (Responded ok http_status statusText (JsonThrows e) :: rest) env g =
  let l := loop ctx inp auth lastStage rest env g in
  (result_of l, globals_of l,
   ([setTimeout 5000;
     fetch (deployments_url (accountId inp) (project inp)) auth;
     core_error ("CF API did not return a JSON (possibly down?) - Status code: "
                 ++ string_of_Z http_status ++ " (" ++ statusText ++ ")");
     core_setFailed (FailError e);
     console_log waiting_text] ++ trace_of l)%list).
Proof.
  intro Hw. rewrite (loop_step _ _ _ _ _ _ _ _ Hw).
  erewrite bind_ok.
  2:{ apply iteration_absent. apply pollApi_not_json. }
  reflexivity.
Qed.

Module Failing.

(** A connection reset on the first poll, a 502 page on the second, the
    finished deployment on the third. *)
Definition reset : JsError := {| message := "read ECONNRESET" |}.
Definition not_json : JsError := {| message := "Unexpected token < in JSON at position 0" |}.

Definition answers : list (FetchOutcome ApiResponse) :=
  [FetchThrows reset;
   Responded false 502 "Bad Gateway" (JsonThrows not_json);
   Samples.answer (Samples.deployment "deploy" "success")].

(** No Slack webhook, no GitHub token. *)
Definition bare_inputs : Inputs :=
  {| accountEmail := ""; apiKey := ""; apiToken := "cf-token";
     accountId := "acct"; project := "site"; githubToken := "";
     commitHash := ""; slackWebHook := "" |}.

End Failing.

(** C1, at the failing input.  After a transport failure and after an
    unparseable body the run has been marked failed, yet it keeps polling:
    all three answers are requested, and the third one makes the run publish
    success = true. *)
Theorem transport_and_parse_failures_do_not_stop_polling :
  let r := run Samples.ctx Failing.bare_inputs Failing.answers Samples.env initial in
  result_of r = Ok Finished
  /\ filter is_poll (trace_of r)
     = [setTimeout 5000; fetch (deployments_url "acct" "site") (Bearer "cf-token");
        setTimeout 5000; fetch (deployments_url "acct" "site") (Bearer "cf-token");
        setTimeout 5000; fetch (deployments_url "acct" "site") (Bearer "cf-token")]
  /\ In (core_setFailed (FailError Failing.reset)) (trace_of r)
  /\ In (core_setFailed (FailError Failing.not_json)) (trace_of r)
  /\ In (core_setOutput "success" (OutBool true)) (trace_of r).
Proof. vm_compute. intuition. Qed.

(** ** Slack without a webhook *)

(** The failure branch asks for the webhook first. *)
Lemma on_failed_without_webhook ctx inp auth d env g :
  slackWebHook inp = "" ->
  filter is_slack (trace_of (on_failed ctx inp auth d env g)) = [].
Proof.
  intro Hno. apply filter_none. revert env g.
  change (only (fun e => is_slack e = false) (on_failed ctx inp auth d)).
  unfold on_failed. rewrite Hno. cbn [truthy String.eqb negb updateDeployment].
  unfold updateDeployment. walk_js.
Qed.

(** The deploy-finished branch does not: a successful deploy sends the
    success text whatever [slackWebHook] holds. *)
Lemma on_deploy_finished_always_sends ctx inp d env g :
  status (latest_stage d) = "success" ->
  In (success_notification ctx inp d) (trace_of (on_deploy_finished ctx inp d env g)).
Proof.
  intro Hst. rewrite (on_deploy_finished_success _ _ _ _ _ Hst). cbv zeta.
  unfold trace_of at 1. cbn [snd]. in_trace.
Qed.

(** C2, at the failing input.  With [slackWebHook] empty, a successful
    deploy still leads to a Slack send. *)
Theorem success_notification_sent_without_webhook :
  let r := run Samples.ctx Failing.bare_inputs
             [Samples.answer (Samples.deployment "deploy" "success")]
             Samples.env initial in
  slackWebHook Failing.bare_inputs = ""
  /\ result_of r = Ok Finished
  /\ filter is_slack (trace_of r)
     = [success_notification Samples.ctx Failing.bare_inputs
          (Samples.deployment "deploy" "success")].
Proof. vm_compute. intuition. Qed.

(** ** Slack delivery cannot fail the run *)





















(** ** The properties on the sample data *)

Lemma sample_github_ok : github_ok Samples.env.
Proof. split; [exists 42%Z; reflexivity | intro; reflexivity]. Qed.

Lemma token_or_pair_witness :
  apiToken Samples.inp <> ""
  /\ validateAuthInputs (apiToken Samples.inp) (accountEmail Samples.inp)
       (apiKey Samples.inp) Samples.env initial = (Ok true, initial, [])
  /\ auth_headers (apiToken Samples.inp) (accountEmail Samples.inp)
       (apiKey Samples.inp) = Bearer "cf-token".
Proof.
  assert (Ht : apiToken Samples.inp <> "") by discriminate.
  split; [exact Ht |].
  exact (proj1 (proj2 (validateAuthInputs_token_or_pair
                         Samples.ctx Samples.inp [] Samples.env initial)) Ht).
Defined.

Lemma status_push_witness :
  "gh-token" <> ""
  /\ is_deploy_terminal (latest_stage (Samples.deployment "queued" "active")) = false
  /\ trace_of (updateDeployment Samples.ctx "gh-token"
                 (Samples.deployment "queued" "active") in_progress Samples.env initial)
     = [call_updateDeployment "gh-token" (Samples.deployment "queued" "active") in_progress;
        createDeployment
          (deployment_args Samples.ctx (Samples.deployment "queued" "active"))].
Proof.
  assert (Ht : "gh-token" <> "") by discriminate.
  split; [exact Ht | split; [reflexivity |]].
  exact (proj1 (proj2 (proj2 (proj2
           (updateDeployment_pushes_status_only_at_finished_deploy
              Samples.ctx "gh-token" (Samples.deployment "queued" "active")
              in_progress Samples.env initial)) Ht eq_refl))).
Defined.

Lemma successful_deploy_witness :
  (is_skipped (Samples.deployment "deploy" "success") = false
   /\ name (latest_stage (Samples.deployment "deploy" "success")) = "deploy"
   /\ status (latest_stage (Samples.deployment "deploy" "success")) = "success"
   /\ github_ok Samples.env)
  /\ filter is_output
       (trace_of (loop Samples.ctx Samples.inp Samples.auth "queued"
                    [Samples.answer (Samples.deployment "deploy" "success")]
                    Samples.env initial))
     = [core_setOutput "id" (OutString "d1");
        core_setOutput "environment" (OutString "production");
        core_setOutput "url" (OutString "https://prod.example");
        core_setOutput "alias" (OutString "https://abc.preview.example");
        core_setOutput "success" (OutBool true)].
Proof.
  split; [split; [| split; [| split]]; try reflexivity; exact sample_github_ok |].
  exact (proj1 (proj2 (proj2 (proj2
           (successful_deploy_publishes_outputs Samples.ctx Samples.inp Samples.auth
              "queued" (Samples.answer (Samples.deployment "deploy" "success")) []
              Samples.env initial (Samples.deployment "deploy" "success")
              eq_refl eq_refl eq_refl eq_refl eq_refl
              (or_intror sample_github_ok)))))).
Defined.

Lemma skipped_deployment_witness :
  is_skipped Samples.skipped = true
  /\ loop Samples.ctx Samples.inp Samples.auth ""
       [Samples.answer Samples.skipped;
        Samples.answer (Samples.deployment "deploy" "failed")] Samples.env initial
     = (Ok Finished, with_waiting initial false,
        [setTimeout 5000;
         fetch (deployments_url "acct" "site") Samples.auth;
         console_log "Deployment skipped d0!";
         core_setOutput "Deployment skipped d0!" OutUndefined]).
Proof.
  split; [reflexivity |].
  exact (skipped_deployment_ends_run_quietly Samples.ctx Samples.inp Samples.auth ""
           (Samples.answer Samples.skipped)
           [Samples.answer (Samples.deployment "deploy" "failed")]
           Samples.env initial Samples.skipped eq_refl eq_refl eq_refl).
Defined.

Lemma newest_deployment_witness :
  commitHash Samples.inp = ""
  /\ result_of (pollApi Samples.auth "acct" "site" ""
                  (Responded true 200 "OK"
                     (JsonBody {| success := true; errors := [];
                                  result := Some [Samples.deployment "build" "active";
                                                  Samples.skipped] |}))
                  Samples.env initial)
     = Ok (Some (Samples.deployment "build" "active")).
Proof.
  split; [reflexivity |].
  exact (proj2 (proj1 (proj2 (proj2
           (pollApi_selects_deployment_or_waits Samples.ctx Samples.inp Samples.auth ""
              true 200%Z "OK"
              {| success := true; errors := [];
                 result := Some [Samples.deployment "build" "active"; Samples.skipped] |}
              Samples.env initial eq_refl))) eq_refl)
           (Samples.deployment "build" "active") [Samples.skipped] eq_refl).
Defined.

Lemma api_error_witness :
  loop Samples.ctx Samples.inp Samples.auth ""
    [Responded false 403 "Forbidden"
       (JsonBody {| success := false; errors := []; result := None |});
     Samples.answer (Samples.deployment "deploy" "success")] Samples.env initial
  = (Ok Finished, with_waiting initial false,
     [setTimeout 5000;
      fetch (deployments_url "acct" "site") Samples.auth;
      core_setFailed
        (FailString ("Failed to check deployment status! Error: "
                     ++ dquote ++ "Unknown error!" ++ dquote));
      console_log waiting_text]).
Proof.
  exact (loop_stops_on_api_error Samples.ctx Samples.inp Samples.auth ""
           false 403%Z "Forbidden"
           {| success := false; errors := []; result := None |}
           [Samples.answer (Samples.deployment "deploy" "success")]
           Samples.env initial eq_refl eq_refl).
Defined.



Lemma no_webhook_witness :
  filter is_slack
    (trace_of (on_failed Samples.ctx Failing.bare_inputs Samples.auth
                 (Samples.deployment "build" "failed") Samples.env initial))
  = [].
Proof.
  exact (on_failed_without_webhook Samples.ctx Failing.bare_inputs Samples.auth
           (Samples.deployment "build" "failed") Samples.env initial eq_refl).
Defined.

Lemma reflected_once_witness :
  (List.length
     (filter is_in_progress_call
        (trace_of (run Samples.ctx Samples.inp
                     [Samples.answer (Samples.deployment "queued" "active");
                      Samples.answer (Samples.deployment "build" "active");
                      Samples.answer (Samples.deployment "deploy" "success")]
                     Samples.env initial))) <= 1)%nat.
Proof.
  exact (proj1 (proj2 (in_progress_reflected_once_on_first_change
                         Samples.ctx Samples.inp
                         [Samples.answer (Samples.deployment "queued" "active");
                          Samples.answer (Samples.deployment "build" "active");
                          Samples.answer (Samples.deployment "deploy" "success")]
                         Samples.env))).
Defined.

(** * Further properties of the run *)

(** ** The shape of [run] *)

Lemma getInput_missing name env g :
  getInput "" name true env g =
  (Throw {| message := "Input required and not supplied: " ++ name |}, g, []).
Proof. reflexivity. Qed.

(** With a required input missing, [run] throws before doing anything. *)
Lemma run_missing_input ctx inp answers env g :
  accountId inp = "" \/ project inp = "" ->
  trace_of (run ctx inp answers env g) = []
  /\ globals_of (run ctx inp answers env g) = g
  /\ exists e, result_of (run ctx inp answers env g) = Throw e.
Proof.
  intro H. unfold run.
  repeat (erewrite bind_silent; [| apply getInput_optional]).
  destruct (String.eqb_spec (accountId inp) "") as [Ha | Ha].
  - erewrite bind_throw; [| rewrite Ha; apply getInput_missing].
    repeat split. eexists. reflexivity.
  - destruct H as [H | H]; [contradiction |].
    erewrite bind_silent; [| apply getInput_required; exact Ha].
    erewrite bind_throw; [| rewrite H; apply getInput_missing].
    repeat split. eexists. reflexivity.
Qed.

(** A property of every call of the loop, of the configuration error and of
    the opening log line is a property of every call of [run]. *)
Lemma run_only (P : event -> Prop) ctx inp answers :
  P auth_error ->
  P (console_log "Waiting for Pages to finish building...") ->
  (forall auth lastStage, only P (loop ctx inp auth lastStage answers)) ->
  only P (run ctx inp answers).
Proof.
  intros Herr Hlog Hloop env g.
  destruct (String.eqb_spec (accountId inp) "") as [Ha | Ha].
  { rewrite (proj1 (run_missing_input ctx inp answers env g (or_introl Ha))).
    constructor. }
  destruct (String.eqb_spec (project inp) "") as [Hp | Hp].
  { rewrite (proj1 (run_missing_input ctx inp answers env g (or_intror Hp))).
    constructor. }
  rewrite (run_with_inputs _ _ _ _ _ Ha Hp). revert env g.
  match goal with |- forall env g, Forall P (trace_of (?c env g)) =>
    change (only P c) end.
  apply only_bind; [unfold validateAuthInputs; walk_js; exact Herr | intro valid].
  destruct (negb valid); [apply only_ret |].
  apply only_bind; [apply only_emit; exact Hlog | intros _]. apply Hloop.
Qed.

(** A property of every call of a pass is a property of every call of the
    loop. *)
Lemma loop_only (P : event -> Prop) ctx inp auth answers :
  (forall answer lastStage, only P (iteration ctx inp auth answer lastStage)) ->
  forall lastStage, only P (loop ctx inp auth lastStage answers).
Proof.
  intro Hpass. induction answers as [| answer rest IH]; intro lastStage; cbn [loop].
  - walk_js.
  - apply only_bind; [apply only_get | intro g0].
    destruct (negb (waiting g0)); [apply only_ret |].
    apply only_bind; [apply Hpass | intros [| ls]]; [apply only_ret | apply IH].
Qed.

(** ** No token, no GitHub *)

Definition is_github_call (e : event) : bool :=
  match e with
  | createDeployment _ | createDeploymentStatus _ => true
  | _ => false
  end.

Definition off_github (e : event) : Prop := is_github_call e = false.

Lemma only_off_github_updateDeployment ctx token d state :
  token = "" -> only off_github (updateDeployment ctx token d state).
Proof.
  intros -> env g. rewrite updateDeployment_no_token. repeat constructor.
Qed.

Lemma only_off_github_iteration ctx inp auth answer lastStage :
  githubToken inp = "" ->
  only off_github (iteration ctx inp auth answer lastStage).
Proof.
  intro Ht.
  unfold iteration, pollApi, handle_deployment, track_stage, on_failed,
    on_deploy_finished, getCloudflareLogs, getCloudflareLogs_try,
    slack_send_and_forget.
  walk_js; try reflexivity.
  all: apply only_off_github_updateDeployment; exact Ht.
Qed.

(** Without a GitHub token a run never calls the GitHub API, whatever the
    polls return. *)
Theorem no_token_no_github_call :
  forall ctx inp answers env g,
    githubToken inp = "" ->
    filter is_github_call (trace_of (run ctx inp answers env g)) = [].
Proof.
  intros ctx inp answers env g Ht. apply filter_none.
  revert env g. change (only off_github (run ctx inp answers)).
  apply run_only; [reflexivity | reflexivity |].
  intros auth lastStage. apply loop_only. intros answer ls.
  apply only_off_github_iteration. exact Ht.
Qed.

(** ** One deployment record per run *)

(** [c] leaves the part [f] of the module-level variables as it is. *)
Definition keeps {X A} (f : Globals -> X) (c : M A) : Prop :=
  forall env g, f (globals_of (c env g)) = f g.

Lemma keeps_bind {X A B} (f : Globals -> X) (c : M A) (k : A -> M B) :
  keeps f c -> (forall a, keeps f (k a)) -> keeps f (bind c k).
Proof.
  intros Hc Hk env g. specialize (Hc env g). unfold bind, globals_of in *.
  destruct (c env g) as [[[a | e] g1] t1]; cbn [fst snd] in *; [| exact Hc].
  specialize (Hk a env g1). unfold globals_of in Hk.
  destruct (k a env g1) as [[r g2] t2]; cbn [fst snd] in *. congruence.
Qed.

Lemma keeps_try_catch {X A} (f : Globals -> X) (c : M A) (h : JsError -> M A) :
  keeps f c -> (forall e, keeps f (h e)) -> keeps f (try_catch c h).
Proof.
  intros Hc Hh env g. specialize (Hc env g). unfold try_catch, globals_of in *.
  destruct (c env g) as [[[a | e] g1] t1]; cbn [fst snd] in *; [exact Hc |].
  specialize (Hh e env g1). unfold globals_of in Hh.
  destruct (h e env g1) as [[r g2] t2]; cbn [fst snd] in *. congruence.
Qed.

Ltac keeps_js :=
  repeat match goal with
    | |- keeps _ (bind _ _) => apply keeps_bind; [| intro]
    | |- keeps _ (try_catch _ _) => apply keeps_try_catch; [| intro]
    | |- keeps _ (if ?b then _ else _) => destruct b
    | |- keeps _ (match ?x with _ => _ end) => destruct x
    end;
  try (intros ? ?; reflexivity).

Lemma keeps_waiting_updateDeployment ctx token d state :
  keeps waiting (updateDeployment ctx token d state).
Proof. unfold updateDeployment. keeps_js. Qed.

Lemma keeps_getCloudflareLogs {X} (f : Globals -> X) auth accountId project deploymentId :
  keeps f (getCloudflareLogs auth accountId project deploymentId).
Proof. unfold getCloudflareLogs, getCloudflareLogs_try. keeps_js. Qed.

Lemma keeps_ghDeployment_pollApi auth accountId project commitHash answer :
  keeps ghDeployment (pollApi auth accountId project commitHash answer).
Proof. unfold pollApi. keeps_js. Qed.

Definition is_create (e : event) : bool :=
  match e with createDeployment _ => true | _ => false end.

(** How many deployment records a trace creates. *)
Definition created (t : list event) : nat := List.length (filter is_create t).

(** Every status update in the trace names the record [gh_id]. *)
Definition pushes_to (gh_id : Z) (t : list event) : Prop :=
  Forall (fun e => match e with
                   | createDeploymentStatus a => cs_deployment_id a = gh_id
                   | _ => True
                   end) t.

Definition no_push (t : list event) : Prop :=
  Forall (fun e => is_status_push e = false) t.

Lemma created_app t1 t2 : created (t1 ++ t2) = (created t1 + created t2)%nat.
Proof. unfold created. rewrite filter_app, length_app. reflexivity. Qed.

Lemma no_push_pushes_to gh_id t : no_push t -> pushes_to gh_id t.
Proof.
  intro H. eapply Forall_impl; [| exact H].
  intros [] He; try exact I. discriminate He.
Qed.

(** What a computation does with the record, seen from the [ghDeployment]
    it starts with.  With a record cached it creates none, keeps it, and
    addresses every status update to it.  With none cached it either leaves
    things so, or creates exactly one: then the id GitHub returned is cached
    and every status update names it, unless the creation itself threw. *)
Definition record_from {A} (env : Env) (g : Globals)
    (r : Result A * Globals * list event) : Prop :=
  (forall gh_id, ghDeployment g = Some gh_id ->
     ghDeployment (globals_of r) = Some gh_id
     /\ created (trace_of r) = 0%nat
     /\ pushes_to gh_id (trace_of r))
  /\ (ghDeployment g = None ->
      (created (trace_of r) = 0%nat
       /\ ghDeployment (globals_of r) = None
       /\ no_push (trace_of r))
      \/ (created (trace_of r) = 1%nat
          /\ ((exists gh_id,
                 createDeployment_result env = inl gh_id
                 /\ ghDeployment (globals_of r) = Some gh_id
                 /\ pushes_to gh_id (trace_of r))
              \/ ((exists e, result_of r = Throw e) /\ no_push (trace_of r))))).

Definition one_record {A} (c : M A) : Prop :=
  forall env g, record_from env g (c env g).

Lemma one_record_quiet {A} (c : M A) :
  only off_github c -> keeps ghDeployment c -> one_record c.
Proof.
  intros Ho Hk env g. specialize (Ho env g). specialize (Hk env g).
  assert (Hc : created (trace_of (c env g)) = 0%nat).
  { unfold created. rewrite filter_none; [reflexivity |].
    eapply Forall_impl; [| exact Ho]. intros [] He; try reflexivity; discriminate He. }
  assert (Hn : no_push (trace_of (c env g))).
  { eapply Forall_impl; [| exact Ho]. intros [] He; try reflexivity; discriminate He. }
  split.
  - intros gh_id Hg. rewrite Hk. repeat split; auto. apply no_push_pushes_to, Hn.
  - intro Hg. left. rewrite Hk. auto.
Qed.

Lemma one_record_bind {A B} (c : M A) (k : A -> M B) :
  one_record c -> (forall a, one_record (k a)) -> one_record (bind c k).
Proof.
  intros Hc Hk env g. specialize (Hc env g).
  unfold record_from, bind, result_of, globals_of, trace_of in *.
  destruct (c env g) as [[[a | e] g1] t1]; cbn [fst snd] in *.
  2:{ destruct Hc as [Hsome Hnone]. split; [exact Hsome |].
      intro Hg. destruct (Hnone Hg) as [Hq | [Hone [Hid | [_ Hn]]]];
        [left; exact Hq | right; split; [exact Hone | left; exact Hid]
        | right; split; [exact Hone | right; split; [eauto | exact Hn]]]. }
  specialize (Hk a env g1). unfold record_from, result_of, globals_of, trace_of in Hk.
  destruct (k a env g1) as [[r g2] t2]; cbn [fst snd] in *.
  rewrite created_app.
  destruct Hc as [Hsome Hnone], Hk as [Hsome' Hnone'].
  assert (Hafter : forall gh_id, ghDeployment g1 = Some gh_id -> pushes_to gh_id t1 ->
            ghDeployment g2 = Some gh_id /\ created t2 = 0%nat
            /\ pushes_to gh_id (t1 ++ t2)).
  { intros gh_id Hg1 Hp. destruct (Hsome' gh_id Hg1) as (Hg2 & Hc2 & Hp2).
    repeat split; auto. apply Forall_app. split; assumption. }
  split.
  - intros gh_id Hg. destruct (Hsome gh_id Hg) as (Hg1 & Hc1 & Hp1).
    destruct (Hafter gh_id Hg1 Hp1) as (Hg2 & Hc2 & Hp2).
    rewrite Hc1, Hc2. auto.
  - intro Hg. destruct (Hnone Hg) as [(Hc1 & Hg1 & Hn1) | [Hc1 [(gh_id & Hid & Hg1 & Hp1) | [[e He] _]]]].
    + rewrite Hc1. cbn [Nat.add].
      destruct (Hnone' Hg1) as [(Hc2 & Hg2 & Hn2) | [Hc2 [(gh_id & Hid & Hg2 & Hp2) | [Hthrow Hn2]]]].
      * left. repeat split; auto. apply Forall_app. split; assumption.
      * right. split; [exact Hc2 | left]. exists gh_id. repeat split; auto.
        apply Forall_app. split; [apply no_push_pushes_to, Hn1 | exact Hp2].
      * right. split; [exact Hc2 | right]. split; [exact Hthrow |].
        apply Forall_app. split; assumption.
    + destruct (Hafter gh_id Hg1 Hp1) as (Hg2 & Hc2 & Hp2).
      right. rewrite Hc1, Hc2. split; [reflexivity | left]. exists gh_id. auto.
    + discriminate He.
Qed.

Lemma one_record_updateDeployment ctx token d state :
  one_record (updateDeployment ctx token d state).
Proof.
  intros env g. destruct (String.eqb_spec token "") as [-> | Ht].
  - apply (one_record_quiet (updateDeployment ctx "" d state)).
    + apply only_off_github_updateDeployment. reflexivity.
    + intros env' g'. rewrite updateDeployment_no_token. reflexivity.
  - destruct (ghDeployment g) as [old |] eqn:Hg.
    + rewrite (updateDeployment_cached _ _ _ _ _ _ _ Ht Hg).
      split; [| rewrite Hg; discriminate].
      intros gh_id Hid. rewrite Hg in Hid. injection Hid as <-.
      destruct (is_deploy_terminal (latest_stage d)); cbn; repeat split;
        auto; repeat constructor.
    + rewrite (updateDeployment_fresh _ _ _ _ _ _ Ht Hg).
      split; [rewrite Hg; discriminate | intros _]. right.
      destruct (createDeployment_result env) as [data | e] eqn:Hcreate.
      * destruct (is_deploy_terminal (latest_stage d)); cbn;
          (split; [reflexivity | left; exists data]);
          repeat split; repeat constructor.
      * cbn. split; [reflexivity | right]. split; [eauto | repeat constructor].
Qed.

Ltac record_leaf :=
  apply one_record_quiet;
  [ unfold getCloudflareLogs, getCloudflareLogs_try, slack_send_and_forget;
    walk_js; reflexivity
  | unfold getCloudflareLogs, getCloudflareLogs_try, slack_send_and_forget;
    keeps_js ].

Ltac record_js :=
  repeat match goal with
    | |- one_record (updateDeployment _ _ _ _) => apply one_record_updateDeployment
    | |- one_record (getCloudflareLogs _ _ _ _) => record_leaf
    | |- one_record (slack_send_and_forget _ _) => record_leaf
    | |- one_record (bind _ _) => apply one_record_bind; [| intro]
    | |- one_record (if ?b then _ else _) => destruct b
    | |- one_record (match ?x with _ => _ end) => destruct x
    end;
  try record_leaf.

Lemma one_record_iteration ctx inp auth answer lastStage :
  one_record (iteration ctx inp auth answer lastStage).
Proof.
  unfold iteration, pollApi, handle_deployment, track_stage, on_failed,
    on_deploy_finished.
  record_js.
Qed.

Lemma one_record_loop ctx inp auth answers :
  forall lastStage, one_record (loop ctx inp auth lastStage answers).
Proof.
  induction answers as [| answer rest IH]; intro lastStage; cbn [loop].
  - record_js.
  - apply one_record_bind; [record_js | intro g0].
    destruct (negb (waiting g0)); [record_js |].
    apply one_record_bind; [apply one_record_iteration | intros [| ls]].
    + record_js.
    + apply IH.
Qed.

Lemma one_record_run ctx inp answers : one_record (run ctx inp answers).
Proof.
  unfold run, getInput, validateAuthInputs.
  repeat (apply one_record_bind; [record_js | intro]).
  destruct (negb _); [record_js |].
  apply one_record_bind; [record_js | intros _].
  apply one_record_loop.
Qed.

(** A run creates at most one GitHub deployment record, and every
    deployment status it pushes is addressed to the id GitHub returned for
    that record. *)
Theorem one_deployment_record_per_run :
  forall ctx inp answers env,
    let t := trace_of (run ctx inp answers env initial) in
    (created t <= 1)%nat
    /\ (forall a, In (createDeploymentStatus a) t ->
          created t = 1%nat
          /\ createDeployment_result env = inl (cs_deployment_id a)).
Proof.
  intros ctx inp answers env t.
  destruct (one_record_run ctx inp answers env initial) as [_ Hnone].
  fold t in Hnone.
  destruct (Hnone eq_refl) as [(Hc & _ & Hn) | [Hc [(gh_id & Hid & _ & Hp) | [_ Hn]]]].
  - split; [lia |]. intros a Hin.
    apply (proj1 (Forall_forall _ _) Hn) in Hin. discriminate Hin.
  - split; [lia |]. intros a Hin.
    apply (proj1 (Forall_forall _ _) Hp) in Hin. cbn in Hin.
    split; [exact Hc | rewrite Hin; exact Hid].
  - split; [lia |]. intros a Hin.
    apply (proj1 (Forall_forall _ _) Hn) in Hin. discriminate Hin.
Qed.

(** ** Where deployment statuses come from *)

Lemma pollApi_returns auth accountId project commitHash answer env g :
  exists found g1 t1,
    pollApi auth accountId project commitHash answer env g = (Ok found, g1, t1)
    /\ Forall off_github t1.
Proof.
  destruct answer as [e | ok http_status statusText [e | body]].
  - rewrite pollApi_transport_failure. eexists _, _, _. split; [reflexivity |].
    repeat constructor.
  - rewrite pollApi_not_json. eexists _, _, _. split; [reflexivity |].
    repeat constructor.
  - rewrite pollApi_body. destruct (success body); eexists _, _, _;
      (split; [reflexivity |]); repeat constructor.
Qed.

Lemma only_no_push_updateDeployment ctx token d state :
  is_deploy_terminal (latest_stage d) = false ->
  only (fun e => is_status_push e = false) (updateDeployment ctx token d state).
Proof.
  intros Hterm env g. destruct (String.eqb_spec token "") as [-> | Ht].
  - rewrite updateDeployment_no_token. repeat constructor.
  - destruct (ghDeployment g) as [old |] eqn:Hg.
    + rewrite (updateDeployment_cached _ _ _ _ _ _ _ Ht Hg), Hterm.
      repeat constructor.
    + rewrite (updateDeployment_fresh _ _ _ _ _ _ Ht Hg), Hterm.
      destruct (createDeployment_result env); repeat constructor.
Qed.

Lemma only_no_push_handle_deployment ctx inp auth d lastStage :
  is_deploy_terminal (latest_stage d) = false ->
  only (fun e => is_status_push e = false) (handle_deployment ctx inp auth d lastStage).
Proof.
  intro Hterm.
  unfold handle_deployment, track_stage, on_failed, on_deploy_finished,
    getCloudflareLogs, getCloudflareLogs_try, slack_send_and_forget.
  walk_js; try reflexivity.
  all: apply only_no_push_updateDeployment; exact Hterm.
Qed.

(** A pass pushes a deployment status to GitHub only when the deployment it
    polled is at stage "deploy" with status "success" or "failed".  In
    particular a failure at any other stage, or with status "failure", is
    never reflected as a status, although [updateDeployment] is called with
    "failure". *)
Theorem status_pushed_only_for_finished_deploy :
  forall ctx inp auth answer lastStage env g a,
    In (createDeploymentStatus a)
       (trace_of (iteration ctx inp auth answer lastStage env g)) ->
    exists d,
      result_of (pollApi auth (accountId inp) (project inp) (commitHash inp)
                   answer env g) = Ok (Some d)
      /\ name (latest_stage d) = "deploy"
      /\ (status (latest_stage d) = "success" \/ status (latest_stage d) = "failed").
Proof.
  intros ctx inp auth answer lastStage env g a Hin.
  destruct (pollApi_returns auth (accountId inp) (project inp) (commitHash inp)
              answer env g) as (found & g1 & t1 & E & Hoff).
  destruct found as [d |].
  - assert (Hpoll : result_of (pollApi auth (accountId inp) (project inp)
                                 (commitHash inp) answer env g) = Ok (Some d))
      by (rewrite E; reflexivity).
    exists d. split; [exact Hpoll |].
    apply is_deploy_terminal_spec.
    destruct (is_deploy_terminal (latest_stage d)) eqn:Hterm; [reflexivity |].
    rewrite (iteration_found _ _ _ _ _ _ _ _ Hpoll) in Hin. cbv zeta in Hin.
    unfold trace_of at 1 in Hin. cbn [snd] in Hin.
    destruct Hin as [Hin | [Hin | Hin]]; try discriminate Hin.
    pose proof (only_no_push_handle_deployment ctx inp auth d lastStage Hterm env g)
      as Hno.
    apply (proj1 (Forall_forall _ _) Hno) in Hin. discriminate Hin.
  - rewrite (iteration_absent _ _ _ _ _ _ _ _ _ E) in Hin.
    unfold trace_of in Hin. cbn [snd] in Hin.
    destruct Hin as [Hin | Hin]; [discriminate Hin |].
    apply in_app_or in Hin. destruct Hin as [Hin | [Hin | []]]; [| discriminate Hin].
    apply (proj1 (Forall_forall _ _) Hoff) in Hin. discriminate Hin.
Qed.

(** ** What a successful deploy sends *)

(** With a token and the GitHub calls not throwing, a pass that polls a
    successfully finished deploy sends the success notification to Slack and
    pushes a "success" status carrying the deployment's URL. *)
Theorem successful_deploy_is_reflected :
  forall ctx inp auth lastStage answer rest env g d,
    waiting g = true ->
    result_of (pollApi auth (accountId inp) (project inp) (commitHash inp) answer env g)
      = Ok (Some d) ->
    is_skipped d = false ->
    name (latest_stage d) = "deploy" ->
    status (latest_stage d) = "success" ->
    githubToken inp <> "" ->
    github_ok env ->
    let t := trace_of (loop ctx inp auth lastStage (answer :: rest) env g) in
    In (success_notification ctx inp d) t
    /\ exists gh_id a,
         In (createDeploymentStatus a) t
         /\ a = status_args ctx d gh_id st_success
         /\ cs_state a = st_success
         /\ cs_environment_url a = url d.
Proof.
  intros ctx inp auth lastStage answer rest env g d Hw Hpoll Hskip Hname Hst Ht Hok t.
  subst t. rewrite (loop_found _ _ _ _ _ _ _ _ _ Hw Hpoll).
  rewrite (handle_deployment_deployed _ _ _ _ _ Hskip Hname Hst).
  destruct (track_stage_returns ctx (githubToken inp) d lastStage env g (or_intror Hok))
    as (ls & g1 & t1 & E1 & _).
  assert (Hterm : is_deploy_terminal (latest_stage d) = true)
    by (apply is_deploy_terminal_spec; auto).
  destruct (updateDeployment_returns ctx (githubToken inp) d st_success env
              (with_waiting g1 false) (or_intror Hok))
    as (g2 & t2 & E2 & Hw2 & _ & _ & Hpush).
  destruct (Hpush Ht Hterm) as [gh_id Hin].
  assert (E3 : on_deploy_finished ctx inp d env g1 =
               (Ok tt, g2,
                (published_outputs d ++
                 [success_notification ctx inp d;
                  later (match slack_rejects env with
                         | None => console_log
                             "Slack message for DEPLOYMENT succeeded pipeline sent!"
                         | Some err => console_error (message err)
                         end)] ++ t2)%list)).
  { rewrite (on_deploy_finished_success _ _ _ _ _ Hst). cbv zeta.
    rewrite (eqb_empty_false _ Ht). cbn [negb]. rewrite E2. reflexivity. }
  cbv zeta.
  rewrite (bind_ok _ _ _ _ _ _ _ E1), (bind_ok _ _ _ _ _ _ _ E3).
  unfold ret, result_of, globals_of, trace_of. cbn [fst snd].
  assert (Hw2' : waiting g2 = false) by exact Hw2.
  rewrite (loop_stopped _ _ _ _ _ _ _ Hw2'). cbn [fst snd].
  split.
  - cbn [app In]. rewrite !in_app_iff. cbn [In]. auto 10.
  - exists gh_id, (status_args ctx d gh_id st_success).
    split; [cbn [app In]; rewrite !in_app_iff; cbn [In]; tauto | repeat split].
Qed.

(** ** The logs in the failure notification *)




(** ** A run that returns has reported *)

(** A report of the outcome: a failure, or an output (the skip message or
    the deployment outputs). *)
Definition is_verdict (e : event) : bool :=
  match e with
  | core_setFailed _ | core_setOutput _ _ => true
  | _ => false
  end.

(** Whenever [c] clears [waiting], it reports. *)
Definition settles {A} (c : M A) : Prop :=
  forall env g,
    waiting g = true ->
    waiting (globals_of (c env g)) = false ->
    existsb is_verdict (trace_of (c env g)) = true.

Lemma settles_quiet {A} (c : M A) : keeps waiting c -> settles c.
Proof. intros Hk env g Hw Hw'. rewrite Hk in Hw'. congruence. Qed.

Lemma settles_bind {A B} (c : M A) (k : A -> M B) :
  settles c -> (forall a, settles (k a)) -> settles (bind c k).
Proof.
  intros Hc Hk env g Hw. specialize (Hc env g Hw).
  unfold bind, globals_of, trace_of in *.
  destruct (c env g) as [[[a | e] g1] t1]; cbn [fst snd] in *; [| exact Hc].
  specialize (Hk a env g1). unfold globals_of, trace_of in Hk.
  destruct (k a env g1) as [[r g2] t2]; cbn [fst snd] in *.
  intro Hw2. rewrite existsb_app. apply orb_true_iff.
  destruct (waiting g1) eqn:Hw1; [right; auto | left; auto].
Qed.

Lemma settles_pollApi auth accountId project commitHash answer :
  settles (pollApi auth accountId project commitHash answer).
Proof.
  intros env g Hw.
  destruct answer as [e | ok http_status statusText [e | body]].
  - rewrite pollApi_transport_failure. reflexivity.
  - rewrite pollApi_not_json. reflexivity.
  - rewrite pollApi_body. destruct (success body); [| reflexivity].
    unfold globals_of. cbn [fst snd]. congruence.
Qed.

Lemma on_failed_reports ctx inp auth d env g :
  existsb is_verdict (trace_of (on_failed ctx inp auth d env g)) = true.
Proof.
  rewrite on_failed_unfold.
  assert (E0 : set_waiting false env g = (Ok tt, with_waiting g false, []))
    by reflexivity.
  destruct (notify_failure_returns ctx inp auth d env (with_waiting g false))
    as (t1 & E1 & _).
  rewrite (bind_ok _ _ _ _ _ _ _ E0), (bind_ok _ _ _ _ _ _ _ E1), bind_emit.
  destruct (updateDeployment ctx (githubToken inp) d st_failure env
              (with_waiting g false)) as [[r2 g2] t2].
  unfold result_of, globals_of, trace_of. cbn [fst snd app].
  rewrite existsb_app. cbn [existsb is_verdict]. apply orb_true_r.
Qed.

Lemma on_deploy_finished_reports ctx inp d env g :
  existsb is_verdict (trace_of (on_deploy_finished ctx inp d env g)) = true.
Proof.
  unfold on_deploy_finished.
  assert (E0 : set_waiting false env g = (Ok tt, with_waiting g false, []))
    by reflexivity.
  rewrite (bind_ok _ _ _ _ _ _ _ E0), bind_emit.
  unfold trace_of at 1 2. cbn [snd app existsb is_verdict orb]. reflexivity.
Qed.

Lemma settles_always {A} (c : M A) :
  (forall env g, existsb is_verdict (trace_of (c env g)) = true) -> settles c.
Proof. intros H env g _ _. apply H. Qed.

Lemma keeps_waiting_track_stage ctx token d lastStage :
  keeps waiting (track_stage ctx token d lastStage).
Proof.
  unfold track_stage. keeps_js. apply keeps_waiting_updateDeployment.
Qed.

Lemma settles_handle_deployment ctx inp auth d lastStage :
  settles (handle_deployment ctx inp auth d lastStage).
Proof.
  unfold handle_deployment. destruct (is_skipped d).
  - apply settles_always. reflexivity.
  - apply settles_bind;
      [apply settles_quiet, keeps_waiting_track_stage | intro ls].
    destruct (_ || _).
    + apply settles_bind;
        [apply settles_always, on_failed_reports | intros _].
      apply settles_quiet. keeps_js.
    + apply settles_bind; [| intros _; apply settles_quiet; keeps_js].
      destruct (_ && _);
        [apply settles_always, on_deploy_finished_reports
        | apply settles_quiet; keeps_js].
Qed.

Lemma settles_iteration ctx inp auth answer lastStage :
  settles (iteration ctx inp auth answer lastStage).
Proof.
  unfold iteration.
  apply settles_bind; [apply settles_quiet; keeps_js | intros _].
  apply settles_bind; [apply settles_pollApi | intros [d |]].
  - apply settles_handle_deployment.
  - apply settles_quiet. keeps_js.
Qed.

Lemma settles_loop ctx inp auth answers :
  forall lastStage, settles (loop ctx inp auth lastStage answers).
Proof.
  induction answers as [| answer rest IH]; intro lastStage; cbn [loop].
  - apply settles_quiet. keeps_js.
  - apply settles_bind; [apply settles_quiet; keeps_js | intro g0].
    destruct (negb (waiting g0)); [apply settles_quiet; keeps_js |].
    apply settles_bind; [apply settles_iteration | intros [| ls]].
    + apply settles_quiet. keeps_js.
    + apply IH.
Qed.

(** The failure branch leaves [waiting] cleared, however it ends. *)
Lemma on_failed_clears_waiting ctx inp auth d env g :
  waiting (globals_of (on_failed ctx inp auth d env g)) = false.
Proof.
  rewrite on_failed_unfold.
  assert (E0 : set_waiting false env g = (Ok tt, with_waiting g false, []))
    by reflexivity.
  rewrite (bind_ok _ _ _ _ _ _ _ E0). unfold globals_of at 1. cbn [fst snd].
  match goal with |- waiting (globals_of (?k env _)) = _ =>
    assert (Hk : keeps waiting k) end.
  { unfold notify_failure, slack_send_and_forget. keeps_js.
    all: first [apply keeps_getCloudflareLogs | apply keeps_waiting_updateDeployment]. }
  rewrite Hk. reflexivity.
Qed.

Lemma handle_deployment_return_stops ctx inp auth d lastStage env g :
  result_of (handle_deployment ctx inp auth d lastStage env g) = Ok Return ->
  waiting (globals_of (handle_deployment ctx inp auth d lastStage env g)) = false.
Proof.
  unfold handle_deployment. destruct (is_skipped d); [reflexivity |].
  destruct (track_stage ctx (githubToken inp) d lastStage env g)
    as [[[ls | e] g2] t2] eqn:E1.
  2:{ rewrite (bind_throw _ _ _ _ _ _ _ E1). discriminate. }
  rewrite (bind_ok _ _ _ _ _ _ _ E1).
  unfold result_of at 1, globals_of at 1. cbn [fst snd].
  destruct (_ || _).
  - pose proof (on_failed_clears_waiting ctx inp auth d env g2) as Hclear.
    destruct (on_failed ctx inp auth d env g2) as [[[[] | e] g3] t3] eqn:E2.
    + rewrite (bind_ok _ _ _ _ _ _ _ E2). intros _. exact Hclear.
    + rewrite (bind_throw _ _ _ _ _ _ _ E2). discriminate.
  - match goal with |- context [bind ?c _ env g2] =>
      destruct (c env g2) as [[[[] | e] g3] t3] eqn:E2 end.
    + rewrite (bind_ok _ _ _ _ _ _ _ E2). discriminate.
    + rewrite (bind_throw _ _ _ _ _ _ _ E2). discriminate.
Qed.

(** A pass that ends at a [return] has cleared [waiting]. *)
Lemma iteration_return_stops ctx inp auth answer lastStage env g :
  result_of (iteration ctx inp auth answer lastStage env g) = Ok Return ->
  waiting (globals_of (iteration ctx inp auth answer lastStage env g)) = false.
Proof.
  destruct (pollApi_returns auth (accountId inp) (project inp) (commitHash inp)
              answer env g) as (found & g1 & t1 & E & _).
  destruct found as [d |].
  - assert (Hpoll : result_of (pollApi auth (accountId inp) (project inp)
                                 (commitHash inp) answer env g) = Ok (Some d))
      by (rewrite E; reflexivity).
    rewrite (iteration_found _ _ _ _ _ _ _ _ Hpoll). cbv zeta.
    unfold result_of at 1, globals_of at 1. cbn [fst snd].
    apply handle_deployment_return_stops.
  - rewrite (iteration_absent _ _ _ _ _ _ _ _ _ E). discriminate.
Qed.

Lemma loop_finished_stopped ctx inp auth answers :
  forall lastStage env g,
    result_of (loop ctx inp auth lastStage answers env g) = Ok Finished ->
    waiting (globals_of (loop ctx inp auth lastStage answers env g)) = false.
Proof.
  induction answers as [| answer rest IH]; intros lastStage env g.
  - destruct (waiting g) eqn:Hw.
    + rewrite (loop_out_of_answers _ _ _ _ _ _ Hw). discriminate.
    + rewrite (loop_stopped _ _ _ _ _ _ _ Hw). intros _. exact Hw.
  - destruct (waiting g) eqn:Hw.
    + rewrite (loop_step _ _ _ _ _ _ _ _ Hw).
      pose proof (iteration_return_stops ctx inp auth answer lastStage env g) as Hret.
      unfold bind, ret, result_of, globals_of in *.
      destruct (iteration ctx inp auth answer lastStage env g)
        as [[[[| ls] | e] g1] t1]; cbn [fst snd] in *.
      * intros _. auto.
      * specialize (IH ls env g1).
        destruct (loop ctx inp auth ls rest env g1) as [[r g2] t2].
        cbn [fst snd] in *. exact IH.
      * discriminate.
    + rewrite (loop_stopped _ _ _ _ _ _ _ Hw). intros _. exact Hw.
Qed.

(** A run that returns has always said how it ended: its trace holds a
    [setFailed] or a [setOutput].  No path leaves the loop silently. *)
Theorem returned_run_has_reported :
  forall ctx inp answers env,
    result_of (run ctx inp answers env initial) = Ok Finished ->
    existsb is_verdict (trace_of (run ctx inp answers env initial)) = true.
Proof.
  intros ctx inp answers env.
  destruct (String.eqb_spec (accountId inp) "") as [Ha | Ha].
  { destruct (run_missing_input ctx inp answers env initial (or_introl Ha))
      as (_ & _ & e & He). rewrite He. discriminate. }
  destruct (String.eqb_spec (project inp) "") as [Hp | Hp].
  { destruct (run_missing_input ctx inp answers env initial (or_intror Hp))
      as (_ & _ & e & He). rewrite He. discriminate. }
  rewrite (run_with_inputs _ _ _ _ _ Ha Hp).
  pose proof (validateAuthInputs_cases (apiToken inp) (accountEmail inp) (apiKey inp)
                env initial) as Ev.
  destruct (_ || _) in Ev; rewrite (bind_ok _ _ _ _ _ _ _ Ev); cbn [negb].
  - rewrite bind_emit.
    unfold result_of at 1 2, globals_of at 1, trace_of at 1 2.
    cbn [fst snd app existsb is_verdict orb].
    intro Hfin.
    apply (settles_loop ctx inp _ answers "" env initial eq_refl).
    apply loop_finished_stopped. exact Hfin.
  - intros _. reflexivity.
Qed.

(** ** Polling an unchanged stage *)

(** A deployment that is neither skipped, nor failed, nor at the finished
    deploy stage. *)
Definition in_flight (d : Deployment) : Prop :=
  is_skipped d = false
  /\ status (latest_stage d) <> "failed"
  /\ status (latest_stage d) <> "failure"
  /\ is_deploy_terminal (latest_stage d) = false.

(** [answer] makes [pollApi] return [d]. *)
Definition yields (inp : Inputs) (auth : AuthHeaders) (d : Deployment)
    (answer : FetchOutcome ApiResponse) : Prop :=
  forall env g,
    result_of (pollApi auth (accountId inp) (project inp) (commitHash inp) answer env g)
    = Ok (Some d).

Definition poll_pair (inp : Inputs) (auth : AuthHeaders) : list event :=
  [setTimeout 5000; fetch (deployments_url (accountId inp) (project inp)) auth].

Lemma handle_deployment_unchanged ctx inp auth d env g :
  in_flight d ->
  handle_deployment ctx inp auth d (name (latest_stage d)) env g
  = (Ok (Continue (name (latest_stage d))), g, []).
Proof.
  intros (Hskip & Hfailed & Hfailure & Hterm). unfold handle_deployment.
  rewrite Hskip.
  rewrite (bind_silent _ _ _ _ _ (track_stage_same _ _ _ _ _ _ eq_refl)).
  rewrite (proj2 (String.eqb_neq _ _) Hfailed), (proj2 (String.eqb_neq _ _) Hfailure).
  cbn [orb]. fold (is_deploy_terminal (latest_stage d)). rewrite Hterm. reflexivity.
Qed.

(** Once a stage name is recorded, polls that show the same deployment
    still at that stage do nothing but sleep and request: nothing is
    announced, reflected, notified or published, the module-level variables
    stay as they are, and the loop goes on polling, however many such polls
    there are. *)
Theorem unchanged_stage_polls_are_idle :
  forall ctx inp auth answers env g d,
    waiting g = true ->
    in_flight d ->
    Forall (yields inp auth d) answers ->
    loop ctx inp auth (name (latest_stage d)) answers env g
    = (Ok StillPolling, g, flat_map (fun _ => poll_pair inp auth) answers).
Proof.
  intros ctx inp auth answers env g d Hw Hfly Hall.
  induction Hall as [| answer rest Hyield _ IH].
  - apply loop_out_of_answers, Hw.
  - rewrite (loop_found _ _ _ _ _ _ _ _ _ Hw (Hyield env g)).
    rewrite (handle_deployment_unchanged _ _ _ _ _ _ Hfly). cbv zeta.
    change (globals_of (Ok (Continue (name (latest_stage d))), g, @nil event)) with g.
    change (result_of (Ok (Continue (name (latest_stage d))), g, @nil event))
      with (@Ok Flow (Continue (name (latest_stage d)))).
    cbv iota. rewrite IH. reflexivity.
Qed.

(** ** The requests a run makes *)

Lemma pollApi_requests auth accountId project commitHash answer env g :
  filter is_poll (trace_of (pollApi auth accountId project commitHash answer env g))
  = [fetch (deployments_url accountId project) auth].
Proof.
  destruct answer as [e | ok http_status statusText [e | body]].
  - rewrite pollApi_transport_failure. reflexivity.
  - rewrite pollApi_not_json. reflexivity.
  - rewrite pollApi_body. destruct (success body); reflexivity.
Qed.

Lemma getCloudflareLogs_requests auth accountId project deploymentId env g :
  filter is_poll (trace_of (getCloudflareLogs auth accountId project deploymentId env g))
  = [fetch (logs_url accountId project deploymentId) auth].
Proof.
  unfold getCloudflareLogs, getCloudflareLogs_try. unfold_js.
  destruct (logs_response env) as [e | [] http_status statusText [e | [[| line lines] |]]];
    reflexivity.
Qed.

Definition no_request (e : event) : Prop := is_poll e = false.

Lemma only_no_request_updateDeployment ctx token d state :
  only no_request (updateDeployment ctx token d state).
Proof. unfold updateDeployment. walk_js; reflexivity. Qed.

Lemma only_no_request_track_stage ctx token d lastStage :
  only no_request (track_stage ctx token d lastStage).
Proof.
  unfold track_stage. walk_js; try reflexivity.
  apply only_no_request_updateDeployment.
Qed.

Lemma only_no_request_on_deploy_finished ctx inp d :
  only no_request (on_deploy_finished ctx inp d).
Proof.
  unfold on_deploy_finished, slack_send_and_forget. walk_js; try reflexivity.
  all: apply only_no_request_updateDeployment.
Qed.

Lemma no_request_filter t : Forall no_request t -> filter is_poll t = [].
Proof. apply filter_none. Qed.

(** The one request the failure branch can make. *)
Definition logs_request (inp : Inputs) (auth : AuthHeaders) (d : Deployment)
  : list event :=
  if truthy (slackWebHook inp)
  then [fetch (logs_url (accountId inp) (project inp) (id d)) auth]
  else [].

Lemma on_failed_requests ctx inp auth d env g :
  filter is_poll (trace_of (on_failed ctx inp auth d env g)) = logs_request inp auth d.
Proof.
  rewrite on_failed_unfold.
  assert (E0 : set_waiting false env g = (Ok tt, with_waiting g false, []))
    by reflexivity.
  destruct (notify_failure_returns ctx inp auth d env (with_waiting g false))
    as (t1 & E1 & _).
  assert (H1 : filter is_poll t1 = logs_request inp auth d).
  { replace t1 with (trace_of (notify_failure ctx inp auth d env (with_waiting g false)))
      by (rewrite E1; reflexivity).
    unfold notify_failure, logs_request.
    destruct (truthy (slackWebHook inp)); [| reflexivity].
    pose proof (getCloudflareLogs_requests auth (accountId inp) (project inp) (id d)
                  env (with_waiting g false)) as Hreq.
    destruct (getCloudflareLogs_total auth (accountId inp) (project inp) (id d) env
                (with_waiting g false)) as (logs & t0 & E & _).
    rewrite E in Hreq. rewrite (bind_ok _ _ _ _ _ _ _ E), slack_send_and_forget_run.
    unfold trace_of in *. cbn [fst snd] in *.
    rewrite filter_app, Hreq. reflexivity. }
  pose proof (only_no_request_updateDeployment ctx (githubToken inp) d st_failure
                env (with_waiting g false)) as Hb.
  rewrite (bind_ok _ _ _ _ _ _ _ E0), (bind_ok _ _ _ _ _ _ _ E1), bind_emit.
  destruct (updateDeployment ctx (githubToken inp) d st_failure env
              (with_waiting g false)) as [[r2 g2] t2].
  unfold result_of, globals_of, trace_of in *. cbn [fst snd app] in *.
  rewrite filter_app, H1. cbn [filter is_poll].
  rewrite (no_request_filter _ Hb), app_nil_r. reflexivity.
Qed.

(** What a pass requests after its poll: nothing, or, on the failure branch
    with a webhook, the logs of the deployment; in that case the loop does
    not go on. *)
Lemma handle_deployment_requests ctx inp auth d lastStage env g :
  let h := handle_deployment ctx inp auth d lastStage env g in
  filter is_poll (trace_of h) = []
  \/ (filter is_poll (trace_of h) = logs_request inp auth d
      /\ forall ls, result_of h <> Ok (Continue ls)).
Proof.
  cbv zeta. unfold handle_deployment. destruct (is_skipped d); [left; reflexivity |].
  pose proof (only_no_request_track_stage ctx (githubToken inp) d lastStage env g) as H1.
  destruct (track_stage ctx (githubToken inp) d lastStage env g)
    as [[[ls | e] g2] t2] eqn:E1; unfold trace_of in H1; cbn [snd] in H1.
  2:{ rewrite (bind_throw _ _ _ _ _ _ _ E1). left. apply no_request_filter, H1. }
  rewrite (bind_ok _ _ _ _ _ _ _ E1).
  unfold result_of at 1 3, trace_of at 1 3 5. cbn [fst snd].
  rewrite !filter_app, (no_request_filter _ H1). cbn [app].
  destruct (_ || _).
  - right. pose proof (on_failed_requests ctx inp auth d env g2) as H2.
    destruct (on_failed ctx inp auth d env g2) as [[[[] | e] g3] t3] eqn:E2;
      unfold trace_of in H2; cbn [snd] in H2.
    + rewrite (bind_ok _ _ _ _ _ _ _ E2). unfold ret, result_of, trace_of.
      cbn [fst snd]. rewrite app_nil_r. split; [exact H2 | discriminate].
    + rewrite (bind_throw _ _ _ _ _ _ _ E2). unfold result_of, trace_of.
      cbn [fst snd]. split; [exact H2 | discriminate].
  - left.
    match goal with |- context [bind ?c _ env g2] =>
      assert (H2 : Forall no_request (trace_of (c env g2)));
      [| destruct (c env g2) as [[[[] | e] g3] t3] eqn:E2 ] end.
    + destruct (_ && _);
        [apply only_no_request_on_deploy_finished | constructor].
    + rewrite (bind_ok _ _ _ _ _ _ _ E2). unfold ret, trace_of in *.
      cbn [fst snd] in *. rewrite app_nil_r. apply no_request_filter, H2.
    + rewrite (bind_throw _ _ _ _ _ _ _ E2). unfold trace_of in *.
      cbn [fst snd] in *. apply no_request_filter, H2.
Qed.

Lemma iteration_requests ctx inp auth answer lastStage env g :
  let i := iteration ctx inp auth answer lastStage env g in
  exists tail,
    filter is_poll (trace_of i) = (poll_pair inp auth ++ tail)%list
    /\ (tail = []
        \/ ((exists d, tail = logs_request inp auth d)
            /\ forall ls, result_of i <> Ok (Continue ls))).
Proof.
  cbv zeta.
  pose proof (pollApi_requests auth (accountId inp) (project inp) (commitHash inp)
                answer env g) as Hreq.
  destruct (pollApi_returns auth (accountId inp) (project inp) (commitHash inp)
              answer env g) as (found & g1 & t1 & E & _).
  destruct found as [d |].
  - assert (Hpoll : result_of (pollApi auth (accountId inp) (project inp)
                                 (commitHash inp) answer env g) = Ok (Some d))
      by (rewrite E; reflexivity).
    rewrite (iteration_found _ _ _ _ _ _ _ _ Hpoll). cbv zeta.
    unfold result_of at 1, trace_of at 1. cbn [fst snd filter is_poll].
    destruct (handle_deployment_requests ctx inp auth d lastStage env g)
      as [Hnone | [Hlogs Hstop]].
    + exists []. rewrite Hnone. auto.
    + exists (logs_request inp auth d). rewrite Hlogs. split; [reflexivity |].
      right. split; [eauto | exact Hstop].
  - rewrite (iteration_absent _ _ _ _ _ _ _ _ _ E).
    rewrite E in Hreq. unfold trace_of in *. cbn [fst snd] in *.
    exists []. split; [| auto].
    cbn [filter is_poll]. rewrite filter_app, Hreq. reflexivity.
Qed.

Lemma loop_requests ctx inp auth answers :
  forall lastStage env g,
    exists n tail,
      (n <= List.length answers)%nat
      /\ filter is_poll (trace_of (loop ctx inp auth lastStage answers env g))
         = (List.concat (repeat (poll_pair inp auth) n) ++ tail)%list
      /\ (tail = [] \/ exists d, tail = logs_request inp auth d).
Proof.
  induction answers as [| answer rest IH]; intros lastStage env g.
  - exists 0%nat, []. split; [lia |]. split; [| auto].
    destruct (waiting g) eqn:Hw;
      [rewrite (loop_out_of_answers _ _ _ _ _ _ Hw)
      | rewrite (loop_stopped _ _ _ _ _ _ _ Hw)]; reflexivity.
  - destruct (waiting g) eqn:Hw.
    2:{ exists 0%nat, []. split; [lia |]. split; [| auto].
        rewrite (loop_stopped _ _ _ _ _ _ _ Hw). reflexivity. }
    rewrite (loop_step _ _ _ _ _ _ _ _ Hw).
    destruct (iteration_requests ctx inp auth answer lastStage env g)
      as (tail & Hreq & Htail).
    destruct (iteration ctx inp auth answer lastStage env g)
      as [[[[| ls] | e] g1] t1] eqn:E;
      unfold result_of, trace_of in Hreq, Htail; cbn [fst snd] in Hreq, Htail.
    + rewrite (bind_ok _ _ _ _ _ _ _ E). unfold ret, trace_of. cbn [fst snd].
      rewrite app_nil_r. exists 1%nat, tail. split; [cbn; lia |].
      split; [cbn [repeat List.concat]; rewrite app_nil_r; exact Hreq |].
      destruct Htail as [-> | [Hd _]]; auto.
    + rewrite (bind_ok _ _ _ _ _ _ _ E).
      destruct (IH ls env g1) as (n & tail' & Hn & Hrest & Htail').
      destruct Htail as [-> | [_ Hstop]]; [| exfalso; exact (Hstop ls eq_refl)].
      exists (S n), tail'. split; [cbn; lia |]. split; [| exact Htail'].
      unfold trace_of at 1. cbn [snd]. rewrite filter_app, Hreq, Hrest.
      rewrite app_nil_r. cbn [repeat List.concat]. rewrite app_assoc. reflexivity.
    + rewrite (bind_throw _ _ _ _ _ _ _ E). unfold trace_of. cbn [snd].
      exists 1%nat, tail. split; [cbn; lia |].
      split; [cbn [repeat List.concat]; rewrite app_nil_r; exact Hreq |].
      destruct Htail as [-> | [Hd _]]; auto.
Qed.

(** The requests of a run, in order: a number of polls, each a 5-second
    timer followed by one request for the deployment list, never more polls
    than answers; then at most one request for a deployment's logs, made
    only when a Slack webhook is configured, after which nothing more is
    requested.  Every request carries the headers chosen from the inputs:
    the bearer token when [apiToken] is set, the email/key pair otherwise. *)
Theorem run_requests_are_paced :
  forall ctx inp answers env g,
    let auth := auth_headers (apiToken inp) (accountEmail inp) (apiKey inp) in
    exists n tail,
      (n <= List.length answers)%nat
      /\ filter is_poll (trace_of (run ctx inp answers env g))
         = (List.concat
              (repeat [setTimeout 5000;
                       fetch (deployments_url (accountId inp) (project inp)) auth] n)
            ++ tail)%list
      /\ (tail = []
          \/ (slackWebHook inp <> ""
              /\ exists deploymentId,
                   tail = [fetch (logs_url (accountId inp) (project inp) deploymentId)
                             auth])).
Proof.
  intros ctx inp answers env g auth.
  assert (Hnothing : forall t : list event, filter is_poll t = [] ->
            exists n tail,
              (n <= List.length answers)%nat
              /\ filter is_poll t
                 = (List.concat (repeat (poll_pair inp auth) n) ++ tail)%list
              /\ (tail = []
                  \/ (slackWebHook inp <> ""
                      /\ exists deploymentId,
                           tail = [fetch (logs_url (accountId inp) (project inp)
                                            deploymentId) auth]))).
  { intros t Ht. exists 0%nat, []. rewrite Ht. split; [lia | auto]. }
  destruct (String.eqb_spec (accountId inp) "") as [Ha | Ha].
  { apply Hnothing.
    rewrite (proj1 (run_missing_input ctx inp answers env g (or_introl Ha))).
    reflexivity. }
  destruct (String.eqb_spec (project inp) "") as [Hp | Hp].
  { apply Hnothing.
    rewrite (proj1 (run_missing_input ctx inp answers env g (or_intror Hp))).
    reflexivity. }
  rewrite (run_with_inputs _ _ _ _ _ Ha Hp).
  pose proof (validateAuthInputs_cases (apiToken inp) (accountEmail inp) (apiKey inp)
                env g) as Ev.
  destruct (_ || _) in Ev; rewrite (bind_ok _ _ _ _ _ _ _ Ev); cbn [negb].
  2:{ apply Hnothing. reflexivity. }
  rewrite bind_emit. unfold trace_of at 1 2. cbn [snd app filter is_poll].
  destruct (loop_requests ctx inp auth answers "" env g)
    as (n & tail & Hn & Hreq & Htail).
  fold auth. exists n, tail. split; [exact Hn |]. split; [exact Hreq |].
  destruct Htail as [-> | [d ->]]; [auto |].
  unfold logs_request. destruct (String.eqb_spec (slackWebHook inp) "") as [He | Hne].
  - rewrite (proj2 (truthy_false _) He). auto.
  - rewrite (proj2 (truthy_true _) Hne). right. split; [exact Hne | eauto].
Qed.

(** ** What can make a run throw *)

(** In environment [env], [c] returns normally from every state. *)
Definition safe {A} (env : Env) (c : M A) : Prop :=
  forall g, exists a, result_of (c env g) = Ok a.

Lemma safe_bind {A B} env (c : M A) (k : A -> M B) :
  safe env c -> (forall a, safe env (k a)) -> safe env (bind c k).
Proof.
  intros Hc Hk g. destruct (Hc g) as [a Ha]. unfold bind, result_of in *.
  destruct (c env g) as [[r g1] t1]. cbn [fst] in Ha. subst r.
  destruct (Hk a g1) as [b Hb]. unfold result_of in Hb.
  destruct (k a env g1) as [[r g2] t2]. cbn [fst] in *. eauto.
Qed.

(** A [try] whose handler returns normally does so itself. *)
Lemma safe_try_catch {A} env (c : M A) (h : JsError -> M A) :
  (forall e, safe env (h e)) -> safe env (try_catch c h).
Proof.
  intros Hh g. unfold try_catch, result_of.
  destruct (c env g) as [[[a | e] g1] t1]; cbn [fst]; [eauto |].
  destruct (Hh e g1) as [b Hb]. unfold result_of in Hb.
  destruct (h e env g1) as [[r g2] t2]. cbn [fst] in *. eauto.
Qed.

Lemma safe_updateDeployment env ctx token d state :
  token = "" \/ github_ok env -> safe env (updateDeployment ctx token d state).
Proof.
  intros Hok g.
  destruct (updateDeployment_returns ctx token d state env g Hok) as (g' & t & E & _).
  rewrite E. exists tt. reflexivity.
Qed.

Ltac safe_js :=
  repeat match goal with
    | |- safe _ (updateDeployment _ _ _ _) => apply safe_updateDeployment; assumption
    | |- safe _ (bind _ _) => apply safe_bind; [| intro]
    | |- safe _ (try_catch _ _) => apply safe_try_catch; intro
    | |- safe _ (if ?b then _ else _) => destruct b
    | |- safe _ (match ?x with _ => _ end) => destruct x
    end;
  try (intros ?; eexists; reflexivity).

Lemma safe_iteration env ctx inp auth answer lastStage :
  githubToken inp = "" \/ github_ok env ->
  safe env (iteration ctx inp auth answer lastStage).
Proof.
  intro Hok.
  unfold iteration, pollApi, handle_deployment, track_stage, on_failed,
    on_deploy_finished, getCloudflareLogs, slack_send_and_forget.
  safe_js.
Qed.

Lemma safe_loop env ctx inp auth answers :
  githubToken inp = "" \/ github_ok env ->
  forall lastStage, safe env (loop ctx inp auth lastStage answers).
Proof.
  intro Hok. induction answers as [| answer rest IH]; intro lastStage; cbn [loop].
  - safe_js.
  - apply safe_bind; [safe_js | intro g0].
    destruct (negb (waiting g0)); [safe_js |].
    apply safe_bind; [apply safe_iteration, Hok | intros [| ls]].
    + safe_js.
    + apply IH.
Qed.

(** With the two required inputs present and every parsed deployment-list
    body an [ApiResponse] envelope, only a throwing GitHub call can make
    [run] throw: when no token is configured, or the GitHub calls succeed,
    the run returns normally (or is still polling) through transport
    failures, bodies that are not JSON, API error envelopes, a failing log
    request and a rejected Slack send.  (A parsed body that is not an
    envelope, such as [null], is outside [FetchOutcome ApiResponse]: the code
    reads [body.success] and [body.errors.length] unchecked.) *)
Theorem run_throws_only_on_github_failure :
  forall ctx inp answers env g,
    accountId inp <> "" ->
    project inp <> "" ->
    githubToken inp = "" \/ github_ok env ->
    exists ending, result_of (run ctx inp answers env g) = Ok ending.
Proof.
  intros ctx inp answers env g Ha Hp Hok.
  rewrite (run_with_inputs _ _ _ _ _ Ha Hp). revert g.
  match goal with |- forall g, exists a, result_of (?c env g) = Ok a =>
    change (safe env c) end.
  unfold validateAuthInputs.
  apply safe_bind; [safe_js | intro valid].
  destruct (negb valid); [safe_js |].
  apply safe_bind; [safe_js | intros _].
  apply safe_loop, Hok.
Qed.

(** A GitHub failure is not caught.  When the first stage change is seen
    with a token configured and [createDeployment] throws, the pass ends
    with that exception right there: the stage's status is never looked at,
    so even a failed stage is neither reported nor notified, and the
    module-level variables are left as they were. *)
Theorem github_failure_aborts_pass :
  forall ctx inp auth lastStage answer rest env g d e,
    waiting g = true ->
    result_of (pollApi auth (accountId inp) (project inp) (commitHash inp) answer env g)
      = Ok (Some d) ->
    is_skipped d = false ->
    name (latest_stage d) <> lastStage ->
    markedAsInProgress g = false ->
    ghDeployment g = None ->
    githubToken inp <> "" ->
    createDeployment_result env = inr e ->
    loop ctx inp auth lastStage (answer :: rest) env g
    = (Throw e, g,
       [setTimeout 5000;
        fetch (deployments_url (accountId inp) (project inp)) auth;
        console_log ("# Now at stage: " ++ name (latest_stage d));
        call_updateDeployment (githubToken inp) d in_progress;
        createDeployment (deployment_args ctx d)]).
Proof.
  intros ctx inp auth lastStage answer rest env g d e
    Hw Hpoll Hskip Hname Hm Hgh Ht Hcreate.
  rewrite (loop_found _ _ _ _ _ _ _ _ _ Hw Hpoll). cbv zeta.
  assert (E : handle_deployment ctx inp auth d lastStage env g =
              (Throw e, g,
               [console_log (stage_text d);
                call_updateDeployment (githubToken inp) d in_progress;
                createDeployment (deployment_args ctx d)])).
  { unfold handle_deployment. rewrite Hskip.
    apply bind_throw.
    rewrite (track_stage_first_change _ _ _ _ _ _ Hname Hm). cbv zeta.
    rewrite (updateDeployment_fresh _ _ _ _ _ _ Ht Hgh), Hcreate. reflexivity. }
  rewrite E. reflexivity.
Qed.

(** ** The further properties on the sample data *)

Definition github_down : Env :=
  {| logs_response := FetchThrows {| message := "socket hang up" |};
     slack_rejects := None;
     createDeployment_result := inr {| message := "Bad credentials" |};
     createDeploymentStatus_throws := fun _ => None |}.

Lemma sample_yields (d : Deployment) : yields Samples.inp Samples.auth d (Samples.answer d).
Proof. intros env g. reflexivity. Qed.

Lemma no_token_witness :
  filter is_github_call
    (trace_of (run Samples.ctx Failing.bare_inputs
                 [Samples.answer (Samples.deployment "queued" "active");
                  Samples.answer (Samples.deployment "deploy" "failed")]
                 Samples.env initial))
  = [].
Proof.
  exact (no_token_no_github_call Samples.ctx Failing.bare_inputs
           [Samples.answer (Samples.deployment "queued" "active");
            Samples.answer (Samples.deployment "deploy" "failed")]
           Samples.env initial eq_refl).
Defined.

Lemma status_origin_witness :
  exists d,
    result_of (pollApi Samples.auth (accountId Samples.inp) (project Samples.inp)
                 (commitHash Samples.inp)
                 (Samples.answer (Samples.deployment "deploy" "success"))
                 Samples.env initial) = Ok (Some d)
    /\ name (latest_stage d) = "deploy"
    /\ (status (latest_stage d) = "success" \/ status (latest_stage d) = "failed").
Proof.
  apply (status_pushed_only_for_finished_deploy Samples.ctx Samples.inp Samples.auth
           (Samples.answer (Samples.deployment "deploy" "success")) "build"
           Samples.env initial
           (status_args Samples.ctx (Samples.deployment "deploy" "success") 42 st_success)).
  vm_compute. repeat (first [left; reflexivity | right]).
Defined.

Lemma success_reflected_witness :
  In (success_notification Samples.ctx Samples.inp (Samples.deployment "deploy" "success"))
     (trace_of (loop Samples.ctx Samples.inp Samples.auth "build"
                  [Samples.answer (Samples.deployment "deploy" "success")]
                  Samples.env initial)).
Proof.
  exact (proj1 (successful_deploy_is_reflected Samples.ctx Samples.inp Samples.auth
                  "build" (Samples.answer (Samples.deployment "deploy" "success")) []
                  Samples.env initial (Samples.deployment "deploy" "success")
                  eq_refl eq_refl eq_refl eq_refl eq_refl
                  (fun H => match H in _ = s return
                                    match s with EmptyString => False | _ => True end
                            with eq_refl => I end)
                  sample_github_ok)).
Defined.




Lemma reported_witness :
  existsb is_verdict
    (trace_of (run Samples.ctx Samples.inp [Samples.answer Samples.skipped]
                 Samples.env initial)) = true.
Proof.
  exact (returned_run_has_reported Samples.ctx Samples.inp
           [Samples.answer Samples.skipped] Samples.env eq_refl).
Defined.

Lemma idle_polls_witness :
  loop Samples.ctx Samples.inp Samples.auth "build"
    [Samples.answer (Samples.deployment "build" "active");
     Samples.answer (Samples.deployment "build" "active");
     Samples.answer (Samples.deployment "build" "active")] Samples.env initial
  = (Ok StillPolling, initial,
     [setTimeout 5000; fetch (deployments_url "acct" "site") Samples.auth;
      setTimeout 5000; fetch (deployments_url "acct" "site") Samples.auth;
      setTimeout 5000; fetch (deployments_url "acct" "site") Samples.auth]).
Proof.
  apply (unchanged_stage_polls_are_idle Samples.ctx Samples.inp Samples.auth
           [Samples.answer (Samples.deployment "build" "active");
            Samples.answer (Samples.deployment "build" "active");
            Samples.answer (Samples.deployment "build" "active")]
           Samples.env initial (Samples.deployment "build" "active")).
  - reflexivity.
  - split; [reflexivity | split; [| split; [| reflexivity]]];
      intro H; cbn in H; discriminate H.
  - repeat constructor; apply sample_yields.
Defined.

Lemma no_throw_witness :
  exists ending,
    result_of (run Samples.ctx Failing.bare_inputs Failing.answers github_down initial)
    = Ok ending.
Proof.
  apply (run_throws_only_on_github_failure Samples.ctx Failing.bare_inputs
           Failing.answers github_down initial).
  - discriminate.
  - discriminate.
  - left. reflexivity.
Defined.

Lemma github_failure_witness :
  loop Samples.ctx Samples.inp Samples.auth ""
    [Samples.answer (Samples.deployment "build" "failed")] github_down initial
  = (Throw {| message := "Bad credentials" |}, initial,
     [setTimeout 5000;
      fetch (deployments_url "acct" "site") Samples.auth;
      console_log "# Now at stage: build";
      call_updateDeployment "gh-token" (Samples.deployment "build" "failed") in_progress;
      createDeployment (deployment_args Samples.ctx (Samples.deployment "build" "failed"))]).
Proof.
  apply (github_failure_aborts_pass Samples.ctx Samples.inp Samples.auth ""
           (Samples.answer (Samples.deployment "build" "failed")) [] github_down initial
           (Samples.deployment "build" "failed") {| message := "Bad credentials" |});
    try reflexivity; discriminate.
Defined.

(** ** The failed deploy stage and GitHub *)

Lemma loop_nil_trace ctx inp auth lastStage env g :
  trace_of (loop ctx inp auth lastStage [] env g) = [].
Proof.
  destruct (waiting g) eqn:Hw;
    [rewrite (loop_out_of_answers _ _ _ _ _ _ Hw)
    | rewrite (loop_stopped _ _ _ _ _ _ _ Hw)]; reflexivity.
Qed.

(** The calls of a run observed over one poll that found a deployment. *)
Lemma single_pass_trace ctx inp auth lastStage answer env g d :
  waiting g = true ->
  result_of (pollApi auth (accountId inp) (project inp) (commitHash inp) answer env g)
    = Ok (Some d) ->
  trace_of (loop ctx inp auth lastStage [answer] env g)
  = (poll_pair inp auth ++ trace_of (handle_deployment ctx inp auth d lastStage env g))%list.
Proof.
  intros Hw Hpoll. rewrite (loop_found _ _ _ _ _ _ _ _ _ Hw Hpoll). cbv zeta.
  destruct (result_of (handle_deployment ctx inp auth d lastStage env g))
    as [[| ls] | e]; unfold trace_of at 1; cbn [snd]; try reflexivity.
  rewrite loop_nil_trace, app_nil_r. reflexivity.
Qed.

(** C3, as the code has it.  A pass that polls a non-skipped deployment
    whose latest stage is "deploy" with status "failed" or "failure" takes
    the failure branch and ends the run there, the later answers never being
    looked at: it publishes no output, sends no Slack text other than the
    failure text and passes on no "success" state.  With status "failure"
    no deployment status is pushed to GitHub at all.  Provided the GitHub
    calls do not throw (or no token is configured), the run returns with
    [waiting] cleared, having reported "Deployment failed on step: deploy!"
    and called [updateDeployment] with state "failure"; it has sent the
    failure notification when a webhook is configured, and pushed the
    "failure" status record when a token is configured and the status is
    "failed". *)
Theorem failed_deploy_takes_failure_path :
  forall ctx inp auth lastStage answer rest env g d,
    waiting g = true ->
    result_of (pollApi auth (accountId inp) (project inp) (commitHash inp) answer env g)
      = Ok (Some d) ->
    is_skipped d = false ->
    name (latest_stage d) = "deploy" ->
    status (latest_stage d) = "failed" \/ status (latest_stage d) = "failure" ->
    let r := loop ctx inp auth lastStage (answer :: rest) env g in
    Forall (failure_path_event ctx inp d) (trace_of r)
    /\ result_of r <> Ok StillPolling
    /\ r = loop ctx inp auth lastStage [answer] env g
    /\ (status (latest_stage d) = "failure" ->
        filter is_status_push (trace_of r) = [])
    /\ (githubToken inp = "" \/ github_ok env ->
        result_of r = Ok Finished
        /\ waiting (globals_of r) = false
        /\ In (core_setFailed (FailString "Deployment failed on step: deploy!"))
             (trace_of r)
        /\ In (call_updateDeployment (githubToken inp) d st_failure) (trace_of r)
        /\ (slackWebHook inp <> "" ->
            exists logs,
              In (slack_send
                    (failure_text (project inp) (or_empty (head_commit_url ctx))
                       (or_empty (context_actor ctx)) d logs)) (trace_of r))
        /\ (githubToken inp <> "" -> status (latest_stage d) = "failed" ->
            exists gh_id,
              In (createDeploymentStatus (status_args ctx d gh_id st_failure))
                 (trace_of r))).
Proof.
  intros ctx inp auth lastStage answer rest env g d Hw Hpoll Hskip Hname Hst r.
  destruct (failed_deploy_failure_branch ctx inp auth lastStage answer rest env g d
              Hw Hpoll Hskip Hname Hst) as (Honly & Hend & Hone & Hpos).
  fold r in Honly, Hend, Hone, Hpos.
  split; [exact Honly |]. split; [exact Hend |]. split; [exact Hone |].
  split; [| exact Hpos].
  intro Hfailure. rewrite Hone, (single_pass_trace _ _ _ _ _ _ _ _ Hw Hpoll).
  rewrite filter_app. cbn [poll_pair filter is_status_push app].
  apply filter_none.
  apply (only_no_push_handle_deployment ctx inp auth d lastStage).
  destruct (is_deploy_terminal (latest_stage d)) eqn:Hterm; [| reflexivity].
  apply is_deploy_terminal_spec in Hterm. destruct Hterm as [_ [Hs | Hs]];
    rewrite Hfailure in Hs; discriminate Hs.
Qed.

(** C3 as stated fails.  At stage "deploy" with status "failure", with a
    token and a webhook configured and GitHub answering, the run takes the
    failure branch, but the only GitHub call it makes is the creation of the
    deployment record: no "failure" status is pushed. *)
Lemma deploy_failure_status_not_pushed :
  result_of (loop Samples.ctx Samples.inp Samples.auth ""
               [Samples.answer (Samples.deployment "deploy" "failure")]
               Samples.env initial) = Ok Finished
  /\ In (core_setFailed (FailString "Deployment failed on step: deploy!"))
       (trace_of (loop Samples.ctx Samples.inp Samples.auth ""
                    [Samples.answer (Samples.deployment "deploy" "failure")]
                    Samples.env initial))
  /\ filter is_github_call
       (trace_of (loop Samples.ctx Samples.inp Samples.auth ""
                    [Samples.answer (Samples.deployment "deploy" "failure")]
                    Samples.env initial))
     = [createDeployment
          (deployment_args Samples.ctx (Samples.deployment "deploy" "failure"))].
Proof.
  split; [reflexivity | split; [| reflexivity]].
  vm_compute. repeat (first [left; reflexivity | right]).
Qed.

Lemma failed_deploy_witness :
  (is_skipped (Samples.deployment "deploy" "failed") = false
   /\ name (latest_stage (Samples.deployment "deploy" "failed")) = "deploy"
   /\ status (latest_stage (Samples.deployment "deploy" "failed")) = "failed"
   /\ githubToken Samples.inp <> ""
   /\ github_ok Samples.env)
  /\ result_of (loop Samples.ctx Samples.inp Samples.auth ""
                  [Samples.answer (Samples.deployment "deploy" "failed")]
                  Samples.env initial) = Ok Finished
  /\ In (core_setFailed (FailString "Deployment failed on step: deploy!"))
       (trace_of (loop Samples.ctx Samples.inp Samples.auth ""
                    [Samples.answer (Samples.deployment "deploy" "failed")]
                    Samples.env initial))
  /\ exists gh_id,
       In (createDeploymentStatus
             (status_args Samples.ctx (Samples.deployment "deploy" "failed") gh_id
                st_failure))
          (trace_of (loop Samples.ctx Samples.inp Samples.auth ""
                       [Samples.answer (Samples.deployment "deploy" "failed")]
                       Samples.env initial)).
Proof.
  assert (Ht : githubToken Samples.inp <> "") by discriminate.
  split; [split; [| split; [| split; [| split]]]; try reflexivity;
          [exact Ht | exact sample_github_ok] |].
  destruct (failed_deploy_takes_failure_path Samples.ctx Samples.inp Samples.auth ""
              (Samples.answer (Samples.deployment "deploy" "failed")) []
              Samples.env initial (Samples.deployment "deploy" "failed")
              eq_refl eq_refl eq_refl eq_refl (or_introl eq_refl))
    as (_ & _ & _ & _ & Hpos).
  destruct (Hpos (or_intror sample_github_ok)) as (Hr & _ & Hin & _ & _ & Hpush).
  split; [exact Hr | split; [exact Hin | exact (Hpush Ht eq_refl)]].
Defined.
